(** * kafka/cluster.py: the client-side cluster metadata cache

    A shallow embedding of [ClusterMetadata] and the properties of its
    refresh protocol: staleness arithmetic, the shared pending-update
    future, the merge of a metadata response and listener notification.

    Conventions of the embedding.
    - Python dicts are [gmap]s, Python sets are [gset]s, Python ints are [Z].
    - Python floats are IEEE 754 binary64 values, with the arithmetic of the
      Standard Library's specification of binary64.
    - [time.time() * 1000] is read once by each method that needs it; the
      float read is passed as the argument [now].
    - [Future] objects live in a store ([futures]) and are referred to by
      their position in it, so that two references to one object are two
      equal handles and an update through one is seen through the other.
    - A listener is a callable compared by identity; it is represented by
      an identifier.  Calling it is recorded, in iteration order, in the
      list a method returns; listeners are taken not to call back into the
      cache.
    - [log.*] calls have no effect on the cache and are left out. *)

From stdpp Require Import gmap strings list fin_maps fin_sets.
From Stdlib Require Import SpecFloat.

#[local] Set Warnings "-clear-no-such-hyp".

Open Scope Z_scope.

(** ** Collaborators *)

(** [kafka.common.BrokerMetadata], a namedtuple of three fields. *)
Record BrokerMetadata := mkBrokerMetadata {
  nodeId : Z;
  host : string;
  port : Z
}.

#[global] Instance BrokerMetadata_eq_dec : EqDecision BrokerMetadata.
Proof. solve_decision. Defined.

#[global] Instance BrokerMetadata_countable : Countable BrokerMetadata.
Proof.
  refine (inj_countable'
            (fun b => (nodeId b, host b, port b))
            (fun t => mkBrokerMetadata t.1.1 t.1.2 t.2) _).
  by intros [].
Defined.

(** The error classes of [kafka.common] that [update_metadata] names, and a
    class for every other code. *)
Inductive ErrorType :=
  | NoError
  | LeaderNotAvailableError
  | UnknownTopicOrPartitionError
  | TopicAuthorizationFailedError
  | InvalidTopicError
  | OtherError (code : Z).

#[global] Instance ErrorType_eq_dec : EqDecision ErrorType.
Proof. solve_decision. Defined.

(** An exception object: an error class instantiated with one argument
    ([error_type(topic)]), or whatever else the refresh driver hands to
    [failed_update]. *)
Inductive Exception :=
  | Instance_of (error_type : ErrorType) (arg : string)
  | DriverError (description : string).

#[global] Instance Exception_eq_dec : EqDecision Exception.
Proof. solve_decision. Defined.

(** Modelled from the spec: [kafka/future.py] is missing.  The pending-update
    handle supports create-unresolved, resolve with success, resolve with
    failure and the query [is_done]; the value of a success is the cache
    itself, of which there is one, so [Success] carries nothing.  Resolving
    a handle twice is unsupported by the spec; here the later resolution
    overwrites the earlier one, and [pending_invariant] below shows that the
    cache on its own never does it. *)
Inductive Future :=
  | Unresolved
  | Success
  | Failure (exception : Exception).

#[global] Instance Future_eq_dec : EqDecision Future.
Proof. solve_decision. Defined.

Definition is_done (f : Future) : bool :=
  match f with
  | Unresolved => false
  | _ => true
  end.

Definition success (f : Future) : Future := Success.

Definition failure (e : Exception) (f : Future) : Future := Failure e.

(** A reference to a [Future] object, and a listener callable. *)
Abbreviation Handle := nat (only parsing).
Abbreviation Listener := positive (only parsing).

(** ** Python numbers

    The timestamps and the result of [ttl()] are Python numbers: an [int],
    of any size, or a [float], an IEEE 754 binary64 value.  Floats are the
    [spec_float]s of the Standard Library, added, subtracted and rounded as
    binary64 is: 53 bits of precision, exponents below 1024, round to
    nearest, ties to even. *)

Inductive Number :=
  | Int (z : Z)
  | Float (f : spec_float).

(** What arithmetic can raise: "int too large to convert to float". *)
Inductive ArithmeticRaised := OverflowError.

(** The conversion that [+] and [-] apply to an [int] operand when the other
    operand is a [float]: the nearest binary64 value, and [OverflowError]
    when that is not finite. *)
Definition float_of_int (z : Z) : ArithmeticRaised + spec_float :=
  match binary_normalize 53 1024 z 0 false with
  | S754_infinity _ => inl OverflowError
  | f => inr f
  end.

(** The rest of a computation is skipped once an exception is raised. *)
Definition and_then {A B : Type} (result : ArithmeticRaised + A)
  (rest : A → ArithmeticRaised + B) : ArithmeticRaised + B :=
  match result with
  | inl raised => inl raised
  | inr a => rest a
  end.

(** [x + y]: exact on two [int]s, binary64 addition otherwise. *)
Definition py_add (x y : Number) : ArithmeticRaised + Number :=
  match x, y with
  | Int a, Int b => inr (Int (a + b))
  | Int a, Float g =>
      and_then (float_of_int a) (λ f, inr (Float (SFadd 53 1024 f g)))
  | Float f, Int b =>
      and_then (float_of_int b) (λ g, inr (Float (SFadd 53 1024 f g)))
  | Float f, Float g => inr (Float (SFadd 53 1024 f g))
  end.

(** [x - y]: exact on two [int]s, binary64 subtraction otherwise. *)
Definition py_sub (x y : Number) : ArithmeticRaised + Number :=
  match x, y with
  | Int a, Int b => inr (Int (a - b))
  | Int a, Float g =>
      and_then (float_of_int a) (λ f, inr (Float (SFsub 53 1024 f g)))
  | Float f, Int b =>
      and_then (float_of_int b) (λ g, inr (Float (SFsub 53 1024 f g)))
  | Float f, Float g => inr (Float (SFsub 53 1024 f g))
  end.

(** Numbers are compared by value, an [int] with a [float] too.  Every
    finite binary64 value is a whole number of units of 2^-1074, the least
    positive one, and so is every [int]: a number has a place among the
    multiples of that unit, or below or above all of them when it is an
    infinity; a NaN has no place. *)
Inductive Position :=
  | Below
  | At (units : Z)
  | Above.

Definition position (x : Number) : option Position :=
  match x with
  | Int z => Some (At (z * 2 ^ 1074))
  | Float (S754_zero _) => Some (At 0)
  | Float (S754_finite s m e) =>
      Some (At (cond_Zopp s (Z.pos m) * 2 ^ (e + 1074)))
  | Float (S754_infinity s) => Some (if s then Below else Above)
  | Float S754_nan => None
  end.

Definition position_compare (p q : Position) : comparison :=
  match p, q with
  | Below, Below => Eq
  | Below, _ => Lt
  | At _, Below => Gt
  | At a, At b => a ?= b
  | At _, Above => Lt
  | Above, Above => Eq
  | Above, _ => Gt
  end.

(** [x > y]; false when either is a NaN. *)
Definition py_gt (x y : Number) : bool :=
  match position x, position y with
  | Some p, Some q =>
      match position_compare p q with
      | Gt => true
      | _ => false
      end
  | _, _ => false
  end.

(** [x <= y]; false when either is a NaN. *)
Definition py_le (x y : Number) : bool :=
  match position x, position y with
  | Some p, Some q =>
      match position_compare p q with
      | Gt => false
      | _ => true
      end
  | _, _ => false
  end.

(** [x == 0], for the [int] 0 and for both float zeros. *)
Definition is_zero (x : Number) : Prop := position x = Some (At 0).

(** Python's [max(a, b, c)]: the first of the largest arguments, each
    later argument replacing the one kept when it is greater. *)
Definition py_max3 (a b c : Number) : Number :=
  let m := if py_gt b a then b else a in
  if py_gt c m then c else m.

(** The float nearest to a whole number of milliseconds, for writing clock
    readings down. *)
Definition ms (z : Z) : spec_float := binary_normalize 53 1024 z 0 false.

(** ** The metadata response *)

(** One entry of a topic's partition list:
    [(error_code, partition, leader, replicas, isr)]. *)
Definition PartitionEntry : Type := Z * Z * Z * list Z * list Z.

(** One entry of [metadata.topics]: [(error_code, topic, partitions)]. *)
Definition TopicEntry : Type := Z * string * list PartitionEntry.

(** One entry of [metadata.brokers]: [(node_id, host, port)]. *)
Definition BrokerEntry : Type := Z * string * Z.

Record MetadataResponse := mkMetadataResponse {
  brokers_of : list BrokerEntry;
  topics_of : list TopicEntry
}.

(** ** The cache *)

Record ClusterMetadata := mkClusterMetadata {
  _retry_backoff_ms : Z;
  _metadata_max_age_ms : Z;
  _brokers : gmap Z BrokerMetadata;
  _partitions : gmap string (gmap Z Z);
  _groups : gmap string Z;
  _version : Z;
  _last_refresh_ms : Number;
  _last_successful_refresh_ms : Number;
  _need_update : bool;
  _future : option Handle;
  _listeners : gset Listener;
  (** the store of the [Future] objects created so far *)
  futures : list Future
}.

(** The constructor: each of the two configuration keys may be absent from
    the keyword arguments and then keeps the class attribute. *)
Definition __init__ (retry_backoff_ms metadata_max_age_ms : option Z)
  : ClusterMetadata :=
  {| _retry_backoff_ms := default 100 retry_backoff_ms;
     _metadata_max_age_ms := default 300000 metadata_max_age_ms;
     _brokers := ∅;
     _partitions := ∅;
     _groups := ∅;
     _version := 0;
     _last_refresh_ms := Int 0;
     _last_successful_refresh_ms := Int 0;
     _need_update := false;
     _future := None;
     _listeners := ∅;
     futures := [] |}.

(** *** Queries *)

Definition brokers (self : ClusterMetadata) : gset BrokerMetadata :=
  list_to_set (map_to_list (_brokers self)).*2.

Definition broker_metadata (broker_id : Z) (self : ClusterMetadata)
  : option BrokerMetadata :=
  _brokers self !! broker_id.

Definition partitions_for_topic (topic : string) (self : ClusterMetadata)
  : option (gset Z) :=
  match _partitions self !! topic with
  | None => None
  | Some leaders => Some (dom leaders)
  end.

(** The argument is a [TopicPartition(topic, partition)]. *)
Definition leader_for_partition (partition : string * Z)
  (self : ClusterMetadata) : option Z :=
  match _partitions self !! partition.1 with
  | None => None
  | Some leaders => leaders !! partition.2
  end.

Definition coordinator_for_group (group : string) (self : ClusterMetadata)
  : option Z :=
  _groups self !! group.

Definition topics (self : ClusterMetadata) : gset string :=
  dom (_partitions self).

(** [self._last_successful_refresh_ms + self._metadata_max_age_ms - now] *)
Definition age_deadline (now : spec_float) (self : ClusterMetadata)
  : ArithmeticRaised + Number :=
  and_then
    (py_add (_last_successful_refresh_ms self)
       (Int (_metadata_max_age_ms self)))
    (λ sum, py_sub sum (Float now)).

(** [self._last_refresh_ms + self._retry_backoff_ms - now] *)
Definition retry_deadline (now : spec_float) (self : ClusterMetadata)
  : ArithmeticRaised + Number :=
  and_then
    (py_add (_last_refresh_ms self) (Int (_retry_backoff_ms self)))
    (λ sum, py_sub sum (Float now)).

Definition ttl (now : spec_float) (self : ClusterMetadata)
  : ArithmeticRaised + Number :=
  and_then
    (if _need_update self then inr (Int 0) else age_deadline now self)
    (λ ttl,
       and_then (retry_deadline now self)
         (λ retry, inr (py_max3 ttl retry (Int 0)))).

(** *** Mutators *)

(** [Future()]: a new object, placed at the end of the store. *)
Definition new_future (self : ClusterMetadata) : Handle * list Future :=
  (length (futures self), futures self ++ [Unresolved]).

(** [self._future.is_done] for the object that [h] refers to. *)
Definition is_done_at (store : list Future) (h : Handle) : bool :=
  match store !! h with
  | Some f => is_done f
  | None => false
  end.

(** A method call on the object that [h] refers to. *)
Definition resolve (method : Future → Future) (h : Handle)
  (store : list Future) : list Future :=
  alter method h store.

Definition request_update (self : ClusterMetadata)
  : Handle * ClusterMetadata :=
  let fresh :=
    match _future self with
    | None => true
    | Some h => is_done_at (futures self) h
    end in
  let '(h, store) :=
    match fresh, _future self with
    | false, Some h => (h, futures self)
    | _, _ => new_future self
    end in
  (h, {| _retry_backoff_ms := _retry_backoff_ms self;
         _metadata_max_age_ms := _metadata_max_age_ms self;
         _brokers := _brokers self;
         _partitions := _partitions self;
         _groups := _groups self;
         _version := _version self;
         _last_refresh_ms := _last_refresh_ms self;
         _last_successful_refresh_ms := _last_successful_refresh_ms self;
         _need_update := true;
         _future := Some h;
         _listeners := _listeners self;
         futures := store |}).

Definition failed_update (now : spec_float) (exception : Exception)
  (self : ClusterMetadata) : ClusterMetadata :=
  {| _retry_backoff_ms := _retry_backoff_ms self;
     _metadata_max_age_ms := _metadata_max_age_ms self;
     _brokers := _brokers self;
     _partitions := _partitions self;
     _groups := _groups self;
     _version := _version self;
     _last_refresh_ms := Float now;
     _last_successful_refresh_ms := _last_successful_refresh_ms self;
     _need_update := _need_update self;
     _future := None;
     _listeners := _listeners self;
     futures :=
       match _future self with
       | Some h => resolve (failure exception) h (futures self)
       | None => futures self
       end |}.

Definition add_listener (listener : Listener) (self : ClusterMetadata)
  : ClusterMetadata :=
  {| _retry_backoff_ms := _retry_backoff_ms self;
     _metadata_max_age_ms := _metadata_max_age_ms self;
     _brokers := _brokers self;
     _partitions := _partitions self;
     _groups := _groups self;
     _version := _version self;
     _last_refresh_ms := _last_refresh_ms self;
     _last_successful_refresh_ms := _last_successful_refresh_ms self;
     _need_update := _need_update self;
     _future := _future self;
     _listeners := {[listener]} ∪ _listeners self;
     futures := futures self |}.

(** What a method can raise: [set.remove] of an absent element. *)
Inductive Raised := KeyError (listener : Listener).

Definition remove_listener (listener : Listener) (self : ClusterMetadata)
  : Raised + ClusterMetadata :=
  if decide (listener ∈ _listeners self) then
    inr {| _retry_backoff_ms := _retry_backoff_ms self;
           _metadata_max_age_ms := _metadata_max_age_ms self;
           _brokers := _brokers self;
           _partitions := _partitions self;
           _groups := _groups self;
           _version := _version self;
           _last_refresh_ms := _last_refresh_ms self;
           _last_successful_refresh_ms := _last_successful_refresh_ms self;
           _need_update := _need_update self;
           _future := _future self;
           _listeners := _listeners self ∖ {[listener]};
           futures := futures self |}
  else inl (KeyError listener).

(** The first loop of [update_metadata]: one [dict.update] per broker
    entry, on the dict that is already there. *)
Definition upsert_broker (known : gmap Z BrokerMetadata) (entry : BrokerEntry)
  : gmap Z BrokerMetadata :=
  let '(node_id, host, port) := entry in
  <[node_id := mkBrokerMetadata node_id host port]> known.

Definition upsert_brokers (entries : list BrokerEntry)
  (known : gmap Z BrokerMetadata) : gmap Z BrokerMetadata :=
  foldl upsert_broker known entries.

(** [self._partitions[topic][partition] = leader]: an update in place of
    the inner dict stored under [topic]. *)
Definition store_leader (topic : string) (parts : gmap string (gmap Z Z))
  (entry : PartitionEntry) : gmap string (gmap Z Z) :=
  let '(_, partition, leader, _, _) := entry in
  alter (insert partition leader) topic parts.

Section Registry.

(** [Errors.for_code], the registry of error classes by numeric code, is
    not part of this file's source: it is a parameter. *)
Variable for_code : Z → ErrorType.

(** The body of the second loop of [update_metadata]; every branch but
    the first only logs. *)
Definition ingest_topic (parts : gmap string (gmap Z Z)) (entry : TopicEntry)
  : gmap string (gmap Z Z) :=
  let '(error_code, topic, partitions) := entry in
  match for_code error_code with
  | NoError => foldl (store_leader topic) (<[topic := ∅]> parts) partitions
  | LeaderNotAvailableError => parts
  | UnknownTopicOrPartitionError => parts
  | TopicAuthorizationFailedError => parts
  | InvalidTopicError => parts
  | OtherError _ => parts
  end.

(** The test that opens [update_metadata]:
    [len(metadata.topics) == 1 and metadata.topics[0][0] != 0]. *)
Definition single_topic_error (metadata : MetadataResponse)
  : option (Z * string) :=
  match topics_of metadata with
  | [(error_code, topic, _)] =>
      if decide (error_code ≠ 0) then Some (error_code, topic) else None
  | _ => None
  end.

(** Returns the cache after the call and the listeners called, in the
    order of the calls. *)
Definition update_metadata (now : spec_float) (metadata : MetadataResponse)
  (self : ClusterMetadata) : ClusterMetadata * list Listener :=
  match single_topic_error metadata with
  | Some (error_code, topic) =>
      let error := Instance_of (for_code error_code) topic in
      (failed_update now error self, [])
  | None =>
      let updated :=
        {| _retry_backoff_ms := _retry_backoff_ms self;
           _metadata_max_age_ms := _metadata_max_age_ms self;
           _brokers := upsert_brokers (brokers_of metadata) (_brokers self);
           _partitions := foldl ingest_topic ∅ (topics_of metadata);
           _groups := _groups self;
           _version := _version self + 1;
           _last_refresh_ms := Float now;
           _last_successful_refresh_ms := Float now;
           _need_update := false;
           _future := None;
           _listeners := _listeners self;
           futures :=
             match _future self with
             | Some h => resolve success h (futures self)
             | None => futures self
             end |} in
      (updated, elements (_listeners updated))
  end.

(** ** Sequences of calls *)

Inductive Call :=
  | call_request_update
  | call_failed_update (now : spec_float) (exception : Exception)
  | call_update_metadata (now : spec_float) (metadata : MetadataResponse)
  | call_add_listener (listener : Listener)
  | call_remove_listener (listener : Listener).

(** One call of a mutator: the exception it raises, or the cache after it
    and the listeners it called. *)
Definition step (c : Call) (self : ClusterMetadata)
  : Raised + ClusterMetadata * list Listener :=
  match c with
  | call_request_update => inr ((request_update self).2, [])
  | call_failed_update now e => inr (failed_update now e self, [])
  | call_update_metadata now metadata => inr (update_metadata now metadata self)
  | call_add_listener l => inr (add_listener l self, [])
  | call_remove_listener l =>
      match remove_listener l self with
      | inl e => inl e
      | inr self' => inr (self', [])
      end
  end.

(** A driver that goes on after an exception: a call that raises leaves
    the cache as it was. *)
Definition after (c : Call) (self : ClusterMetadata) : ClusterMetadata :=
  match step c self with
  | inl _ => self
  | inr (self', _) => self'
  end.

Definition notified_by (c : Call) (self : ClusterMetadata) : list Listener :=
  match step c self with
  | inl _ => []
  | inr (_, ls) => ls
  end.

Fixpoint run (cs : list Call) (self : ClusterMetadata) : ClusterMetadata :=
  match cs with
  | [] => self
  | c :: cs' => run cs' (after c self)
  end.

(** Every listener call made during [cs], oldest first. *)
Fixpoint notifications (cs : list Call) (self : ClusterMetadata)
  : list Listener :=
  match cs with
  | [] => []
  | c :: cs' => notified_by c self ++ notifications cs' (after c self)
  end.

(** A call of [update_metadata] that is not turned into a failure. *)
Definition is_successful_update (c : Call) : bool :=
  match c with
  | call_update_metadata _ metadata =>
      bool_decide (single_topic_error metadata = None)
  | _ => false
  end.

End Registry.

(** Modelled from the spec: the registry of [kafka.common] is missing.  Code
    0 is success and code 3 is UnknownTopicOrPartition, as the spec's
    examples have them; the other three named classes carry their codes of
    the Kafka protocol, and any other code has a class of its own. *)
Definition Errors_for_code (error_code : Z) : ErrorType :=
  if decide (error_code = 0) then NoError
  else if decide (error_code = 3) then UnknownTopicOrPartitionError
  else if decide (error_code = 5) then LeaderNotAvailableError
  else if decide (error_code = 17) then InvalidTopicError
  else if decide (error_code = 29) then TopicAuthorizationFailedError
  else OtherError error_code.

(** ** Vocabulary of the properties

    What a response lists, read off the response alone. *)

(** The partition indices of a partition list. *)
Definition partition_indices (partitions : list PartitionEntry) : gset Z :=
  list_to_set ((λ entry : PartitionEntry, entry.1.1.1.2) <$> partitions).

(** The leaders a partition list assigns, a later entry overriding an
    earlier one of the same index. *)
Definition leaders_of (partitions : list PartitionEntry) : gmap Z Z :=
  foldl (λ leaders (entry : PartitionEntry),
           <[entry.1.1.1.2 := entry.1.1.2]> leaders) ∅ partitions.

(** Every partition index that some entry naming [topic] lists. *)
Definition listed_indices (topic : string) (ts : list TopicEntry) : gset Z :=
  ⋃ ((λ entry : TopicEntry,
        if decide (entry.1.2 = topic) then partition_indices entry.2 else ∅)
       <$> ts).

(** [topic] is named by exactly one entry. *)
Definition named_once (topic : string) (ts : list TopicEntry) : Prop :=
  length (filter (λ entry : TopicEntry, entry.1.2 = topic) ts) = 1%nat.

(** No topic is stored with an empty map of leaders. *)
Definition no_empty_topic (parts : gmap string (gmap Z Z)) : Prop :=
  ∀ topic leaders, parts !! topic = Some leaders → leaders ≠ ∅.

(** The node ids that a broker list names. *)
Definition listed_nodes (bs : list BrokerEntry) : gset Z :=
  list_to_set ((λ entry : BrokerEntry, entry.1.1) <$> bs).

(** The broker built from the last entry of [bs] for [node_id]. *)
Fixpoint last_broker (node_id : Z) (bs : list BrokerEntry)
  : option BrokerMetadata :=
  match bs with
  | [] => None
  | (n, h, p) :: bs' =>
      match last_broker node_id bs' with
      | Some b => Some b
      | None =>
          if decide (n = node_id) then Some (mkBrokerMetadata n h p) else None
      end
  end.

(** A state in which the cache's reference to a future, if it has one,
    refers to an object of the store. *)
Definition well_formed (self : ClusterMetadata) : Prop :=
  match _future self with
  | Some h => (h < length (futures self))%nat
  | None => True
  end.

(** The cache refers to the future [h], which is not resolved. *)
Definition pending (h : Handle) (self : ClusterMetadata) : Prop :=
  _future self = Some h ∧ is_done_at (futures self) h = false.

(** The future the cache refers to, if any, is in the store, unresolved. *)
Definition pending_unresolved (self : ClusterMetadata) : Prop :=
  ∀ h, _future self = Some h → futures self !! h = Some Unresolved.

(** Calls that resolve the pending future. *)
Definition is_resolution (c : Call) : bool :=
  match c with
  | call_failed_update _ _ | call_update_metadata _ _ => true
  | _ => false
  end.

Definition is_request (c : Call) : bool :=
  match c with
  | call_request_update => true
  | _ => false
  end.

(** The two kinds of response that the version counter tells apart.  A
    response is multi-topic or error-free when it lists more than one topic
    or every topic it lists has the error code 0, a response without topics
    included; it is a single-topic error when it lists exactly one topic
    and the error code of that topic is not 0. *)
Definition multi_topic_or_error_free (metadata : MetadataResponse) : bool :=
  (1 <? length (topics_of metadata))%nat
  || forallb (λ entry : TopicEntry, entry.1.1 =? 0) (topics_of metadata).

Definition single_topic_in_error (metadata : MetadataResponse) : bool :=
  (length (topics_of metadata) =? 1)%nat
  && existsb (λ entry : TopicEntry, negb (entry.1.1 =? 0))
       (topics_of metadata).

(** The calls that count as successful updates: [update_metadata] with a
    response that is multi-topic or error-free. *)
Definition successful_update (c : Call) : bool :=
  match c with
  | call_update_metadata _ metadata => multi_topic_or_error_free metadata
  | _ => false
  end.

Section Listing.

Variable for_code : Z → ErrorType.

(** The topics that some entry reports without error. *)
Definition no_error_topics (ts : list TopicEntry) : gset string :=
  list_to_set
    ((λ entry : TopicEntry, entry.1.2) <$>
       filter (λ entry : TopicEntry, for_code entry.1.1 = NoError) ts).

(** The partition list of the last entry of [ts] that names [topic] and
    reports no error. *)
Fixpoint last_no_error (topic : string) (ts : list TopicEntry)
  : option (list PartitionEntry) :=
  match ts with
  | [] => None
  | (error_code, t, partitions) :: ts' =>
      match last_no_error topic ts' with
      | Some ps => Some ps
      | None =>
          if decide (t = topic ∧ for_code error_code = NoError)
          then Some partitions else None
      end
  end.

(** A call whose response, if it has one, lists at least one partition
    for every topic it reports without error. *)
Definition populated (c : Call) : Prop :=
  match c with
  | call_update_metadata _ metadata =>
      Forall (λ entry : TopicEntry,
                for_code entry.1.1 = NoError → entry.2 ≠ [])
             (topics_of metadata)
  | _ => True
  end.

End Listing.

(** ** Sample responses *)

(** Two brokers, a topic of two partitions and a topic that is not known. *)
Definition orders_response : MetadataResponse :=
  mkMetadataResponse
    [(1, "h1"%string, 9092); (2, "h2"%string, 9092)]
    [(0, "orders"%string, [(0, 0, 1, [], []); (0, 1, 2, [], [])]);
     (3, "ghost"%string, [])].

(** One topic, in error. *)
Definition solo_response : MetadataResponse :=
  mkMetadataResponse [] [(5, "solo"%string, [])].

(** One topic named by two entries, each without error. *)
Definition twice_listed_response : MetadataResponse :=
  mkMetadataResponse []
    [(0, "a"%string, [(0, 0, 1, [], [])]);
     (0, "a"%string, [(0, 1, 2, [], [])])].

(** One topic without error and without partitions. *)
Definition no_partitions_response : MetadataResponse :=
  mkMetadataResponse [] [(0, "t"%string, [])].

(** Broker 1 alone, then broker 2 alone. *)
Definition first_broker_response : MetadataResponse :=
  mkMetadataResponse [(1, "h1"%string, 9092)] [].

Definition second_broker_response : MetadataResponse :=
  mkMetadataResponse [(2, "h2"%string, 9092)] [].

(** The brokers built from the entries of a response. *)
Definition built_brokers (bs : list BrokerEntry) : gset BrokerMetadata :=
  list_to_set
    ((λ entry : BrokerEntry, mkBrokerMetadata entry.1.1 entry.1.2 entry.2)
       <$> bs).

(** A new cache with the default configuration, and the same after one
    [request_update()]. *)
Definition new_cache : ClusterMetadata := __init__ None None.

Definition requested_cache : ClusterMetadata := (request_update new_cache).2.


(** ** Vocabulary of the further properties *)

(** The leader named by the last entry of a partition list that has the
    index [partition]. *)
Fixpoint last_leader (partition : Z) (ps : list PartitionEntry) : option Z :=
  match ps with
  | [] => None
  | entry :: ps' =>
      match last_leader partition ps' with
      | Some leader => Some leader
      | None =>
          if decide (entry.1.1.1.2 = partition) then Some entry.1.1.2 else None
      end
  end.

(** The clock reading a call takes, for the calls that read the clock. *)
Definition reading (c : Call) : option spec_float :=
  match c with
  | call_failed_update now _ | call_update_metadata now _ => Some now
  | _ => None
  end.

(** The clock never goes back: every reading of [cs] is at or after the one
    before it, the first at or after [start]. *)
Fixpoint clock_monotone (start : Number) (cs : list Call) : Prop :=
  match cs with
  | [] => True
  | c :: cs' =>
      match reading c with
      | Some now =>
          py_le start (Float now) = true ∧ clock_monotone (Float now) cs'
      | None => clock_monotone start cs'
      end
  end.

(** A float of the given sign: a zero, a finite value or an infinity. *)
Definition has_sign (s : bool) (f : spec_float) : Prop :=
  match f with
  | S754_zero s' | S754_infinity s' | S754_finite s' _ _ => s' = s
  | S754_nan => False
  end.

(** What a timestamp of the cache can be: the [int] 0 it starts with, or a
    float read from the clock. *)
Definition is_stamp (x : Number) : Prop := x = Int 0 ∨ ∃ f, x = Float f.

(** Every broker is stored under its own node id. *)
Definition keyed_by_node_id (known : gmap Z BrokerMetadata) : Prop :=
  ∀ node_id b, known !! node_id = Some b → nodeId b = node_id.

(** How many times [listener] occurs in a list of listener calls. *)
Definition times_called (listener : Listener) (called : list Listener) : nat :=
  length (filter (λ l, l = listener) called).

(** Two topics, both in error. *)
Definition all_errors_response : MetadataResponse :=
  mkMetadataResponse [(1, "h1"%string, 9092)]
    [(3, "ghost"%string, []); (29, "secret"%string, [])].

(** A request, a refresh that fails at time 10 and one that succeeds at
    time 20. *)
Definition sample_calls : list Call :=
  [call_request_update;
   call_failed_update (ms 10) (DriverError "timeout");
   call_update_metadata (ms 20) orders_response].

(** Four successful updates among failures, a request and a listener. *)
Definition mixed_calls : list Call :=
  [call_update_metadata (ms 10) orders_response;
   call_failed_update (ms 20) (DriverError "timeout");
   call_update_metadata (ms 30) solo_response;
   call_update_metadata (ms 40) no_partitions_response;
   call_request_update;
   call_add_listener 3;
   call_update_metadata (ms 50) all_errors_response;
   call_failed_update (ms 60) (DriverError "reset");
   call_update_metadata (ms 70) first_broker_response].

(** ** Lemmas on the two loops of [update_metadata] *)

Lemma store_leader_lookup topic parts entry t :
  store_leader topic parts entry !! t =
  if decide (topic = t)
  then insert entry.1.1.1.2 entry.1.1.2 <$> parts !! t
  else parts !! t.
Proof.
  destruct entry as [[[[e p] l] r] i]. unfold store_leader. simpl.
  rewrite lookup_alter. by repeat case_decide; subst.
Qed.

Lemma store_leaders_lookup topic partitions parts t :
  foldl (store_leader topic) parts partitions !! t =
  if decide (topic = t)
  then (λ inner,
          foldl (λ leaders (entry : PartitionEntry),
                   <[entry.1.1.1.2 := entry.1.1.2]> leaders) inner partitions)
         <$> parts !! t
  else parts !! t.
Proof.
  revert parts. induction partitions as [|entry partitions IH]; intros parts.
  - simpl. case_decide; [by destruct (parts !! t)|done].
  - simpl. rewrite IH, store_leader_lookup.
    case_decide; [|done]. by destruct (parts !! t).
Qed.

Lemma dom_fill_leaders partitions (inner : gmap Z Z) :
  dom (foldl (λ leaders (entry : PartitionEntry),
                <[entry.1.1.1.2 := entry.1.1.2]> leaders) inner partitions)
  = dom inner ∪ partition_indices partitions.
Proof.
  revert inner. unfold partition_indices.
  induction partitions as [|entry partitions IH]; intros inner; simpl.
  - set_solver.
  - rewrite IH, dom_insert_L. set_solver.
Qed.

Lemma dom_leaders_of partitions :
  dom (leaders_of partitions) = partition_indices partitions.
Proof. unfold leaders_of. rewrite dom_fill_leaders. set_solver. Qed.

Lemma leaders_of_empty partitions :
  leaders_of partitions = ∅ ↔ partitions = [].
Proof.
  split; [|by intros ->].
  destruct partitions as [|entry partitions]; [done|]. intros Hempty.
  assert (Hdom : dom (leaders_of (entry :: partitions)) = ∅)
    by (by rewrite Hempty, dom_empty_L).
  rewrite dom_leaders_of in Hdom. unfold partition_indices in Hdom.
  simpl in Hdom. set_solver.
Qed.

Section Ingestion.

Variable for_code : Z → ErrorType.

Lemma ingest_topic_lookup parts (entry : TopicEntry) t :
  ingest_topic for_code parts entry !! t =
  if decide (entry.1.2 = t ∧ for_code entry.1.1 = NoError)
  then Some (leaders_of entry.2)
  else parts !! t.
Proof.
  destruct entry as [[code topic] partitions]. simpl.
  destruct (for_code code) eqn:Hcode;
    try (case_decide as H; [by destruct H|done]).
  rewrite store_leaders_lookup.
  case_decide as Ht.
  - subst t. rewrite lookup_insert_eq. simpl.
    case_decide as H; [done|]. by destruct H.
  - rewrite lookup_insert_ne by done.
    case_decide as H; [by destruct H|done].
Qed.

(** The second loop, entry by entry: a topic ends with the leaders of its
    last entry without error, and is not stored when it has none. *)
Lemma ingest_topics_lookup ts parts t :
  foldl (ingest_topic for_code) parts ts !! t =
  match last_no_error for_code t ts with
  | Some partitions => Some (leaders_of partitions)
  | None => parts !! t
  end.
Proof.
  revert parts. induction ts as [|[[code topic] partitions] ts IH];
    intros parts; [done|].
  cbn [foldl last_no_error]. rewrite IH.
  destruct (last_no_error for_code t ts); [done|].
  rewrite ingest_topic_lookup. simpl. by case_decide.
Qed.

Lemma last_no_error_is_Some t ts :
  is_Some (last_no_error for_code t ts) ↔ t ∈ no_error_topics for_code ts.
Proof.
  unfold no_error_topics. induction ts as [|[[code topic] partitions] ts IH].
  - simpl. rewrite is_Some_alt. set_solver.
  - simpl last_no_error. rewrite filter_cons. simpl.
    destruct (last_no_error for_code t ts) as [ps|] eqn:Hlast.
    + assert (Hin : t ∈ (list_to_set
        ((λ entry : TopicEntry, entry.1.2) <$>
           filter (λ entry : TopicEntry, for_code entry.1.1 = NoError) ts)
        : gset string)) by (apply IH; eauto).
      split; [intros _|eauto]. case_decide; set_solver.
    + assert (Hnot : t ∉ (list_to_set
        ((λ entry : TopicEntry, entry.1.2) <$>
           filter (λ entry : TopicEntry, for_code entry.1.1 = NoError) ts)
        : gset string)).
      { intros Hin. apply IH in Hin. by destruct Hin. }
      repeat case_decide; rewrite ?is_Some_alt; set_solver.
Qed.

End Ingestion.

Lemma upsert_brokers_lookup bs known node_id :
  upsert_brokers bs known !! node_id =
  match last_broker node_id bs with
  | Some b => Some b
  | None => known !! node_id
  end.
Proof.
  unfold upsert_brokers. revert known.
  induction bs as [|[[n h] p] bs IH]; intros known; [done|].
  cbn [foldl last_broker]. rewrite IH.
  destruct (last_broker node_id bs); [done|]. unfold upsert_broker.
  case_decide; subst; [by rewrite lookup_insert_eq|by rewrite lookup_insert_ne].
Qed.

Lemma last_broker_None node_id bs :
  last_broker node_id bs = None ↔ node_id ∉ listed_nodes bs.
Proof.
  unfold listed_nodes. induction bs as [|[[n h] p] bs IH]; simpl.
  - set_solver.
  - destruct (last_broker node_id bs) eqn:Hlast.
    + split; [done|]. intros Hnot. exfalso.
      assert (node_id ∉ (list_to_set
        ((λ entry : BrokerEntry, entry.1.1) <$> bs) : gset Z)) by set_solver.
      by apply IH in H.
    + case_decide; [set_solver|]. split; [intros _|done].
      assert (node_id ∉ (list_to_set
        ((λ entry : BrokerEntry, entry.1.1) <$> bs) : gset Z))
        by (by apply IH).
      set_solver.
Qed.

Lemma elem_of_brokers b self :
  b ∈ brokers self ↔ ∃ node_id, broker_metadata node_id self = Some b.
Proof.
  unfold brokers, broker_metadata. rewrite elem_of_list_to_set, list_elem_of_fmap.
  split.
  - intros [[k v] [-> Hin]]. exists k. by apply elem_of_map_to_list.
  - intros [k Hk]. exists (k, b). split; [done|]. by apply elem_of_map_to_list.
Qed.

(** ** The staleness clock *)

Lemma position_compare_opp p q :
  position_compare q p = CompOpp (position_compare p q).
Proof. destruct p, q; simpl; try done. apply Z.compare_antisym. Qed.

Lemma position_compare_trans p q r :
  position_compare p q = Gt → position_compare q r = Gt →
  position_compare p r = Gt.
Proof.
  destruct p, q, r; simpl; try done.
  rewrite !Z.compare_gt_iff. lia.
Qed.

Lemma position_compare_refl p : position_compare p p = Eq.
Proof. destruct p; simpl; try done. apply Z.compare_refl. Qed.

Lemma py_gt_true x y :
  py_gt x y = true ↔
  ∃ p q, position x = Some p ∧ position y = Some q
         ∧ position_compare p q = Gt.
Proof.
  unfold py_gt. split.
  - destruct (position x) as [p|], (position y) as [q|]; try done.
    destruct (position_compare p q) eqn:Hc; try done. eauto.
  - intros (p & q & -> & -> & ->). done.
Qed.

Lemma py_gt_irrefl x : py_gt x x = false.
Proof.
  unfold py_gt. destruct (position x) as [p|]; [|done].
  by rewrite position_compare_refl.
Qed.

Lemma py_gt_asym x y : py_gt x y = true → py_gt y x = false.
Proof.
  rewrite py_gt_true. intros (p & q & Hp & Hq & Hc). unfold py_gt.
  by rewrite Hp, Hq, position_compare_opp, Hc.
Qed.

Lemma py_gt_trans x y z :
  py_gt x y = true → py_gt y z = true → py_gt x z = true.
Proof.
  rewrite !py_gt_true. intros (p & q & Hp & Hq & Hc) (q' & r & Hq' & Hr & Hc').
  simplify_eq. exists p, r. eauto using position_compare_trans.
Qed.

(** [max(a, b, c)] is one of its arguments, and none of them is greater. *)
Lemma py_max3_greatest a b c :
  let v := py_max3 a b c in
  (v = a ∨ v = b ∨ v = c)
  ∧ py_gt a v = false ∧ py_gt b v = false ∧ py_gt c v = false.
Proof.
  unfold py_max3. simpl.
  destruct (py_gt b a) eqn:Hba.
  - destruct (py_gt c b) eqn:Hcb.
    + repeat split; [tauto| |by apply py_gt_asym|apply py_gt_irrefl].
      by apply py_gt_asym, (py_gt_trans c b a).
    + repeat split; [tauto|by apply py_gt_asym|apply py_gt_irrefl|done].
  - destruct (py_gt c a) eqn:Hca.
    + repeat split; [tauto|by apply py_gt_asym| |apply py_gt_irrefl].
      destruct (py_gt b c) eqn:Hbc; [|done].
      by rewrite (py_gt_trans b c a) in Hba.
    + repeat split; [tauto|apply py_gt_irrefl|done|done].
Qed.

(** With 0 as its first and last argument, [max] clamps the middle one. *)
Lemma py_max3_clamp retry :
  py_max3 (Int 0) retry (Int 0) = if py_gt retry (Int 0) then retry else Int 0.
Proof.
  unfold py_max3. destruct (py_gt retry (Int 0)) eqn:Hr.
  - by rewrite (py_gt_asym _ _ Hr).
  - by rewrite py_gt_irrefl.
Qed.


Lemma ttl_requested now self :
  ttl now (request_update self).2 =
  and_then (retry_deadline now self)
    (λ retry, inr (if py_gt retry (Int 0) then retry else Int 0)).
Proof.
  assert (Hsame : retry_deadline now (request_update self).2
                  = retry_deadline now self
                  ∧ _need_update (request_update self).2 = true).
  { unfold request_update.
    by destruct (match _ with None => _ | Some _ => _ end), (_future self). }
  destruct Hsame as [Hretry Hneed]. unfold ttl. rewrite Hneed, Hretry. simpl.
  destruct (retry_deadline now self) as [raised|retry]; [done|]. simpl.
  by rewrite py_max3_clamp.
Qed.


(** ** The failure path *)

Lemma resolve_lookup method (pending : option Handle) store (h : Handle) :
  match pending with
  | Some h0 => resolve method h0 store
  | None => store
  end !! h =
  if decide (pending = Some h) then method <$> store !! h else store !! h.
Proof.
  destruct pending as [h0|]; [|by case_decide].
  unfold resolve. rewrite list_lookup_alter.
  repeat case_decide; simplify_eq; done.
Qed.

Lemma resolve_length method (pending : option Handle) store :
  length match pending with
         | Some h0 => resolve method h0 store
         | None => store
         end = length store.
Proof. destruct pending; [|done]. unfold resolve. by rewrite length_alter. Qed.

(** C8.  [failed_update(error)] fails the pending future when there is one
    and drops the reference, stamps [last_refresh_ms], and leaves every
    other attribute, the need-update flag among them, as it was; over all
    calls the flag is set by [request_update], cleared by a successful
    [update_metadata] and kept by anything else. *)
Theorem failed_update_frame (for_code : Z → ErrorType)
  (self : ClusterMetadata) (now : spec_float) (error : Exception) :
  let self' := failed_update now error self in
  _future self' = None
  ∧ _last_refresh_ms self' = Float now
  ∧ (∀ h : Handle,
       futures self' !! h =
       if decide (_future self = Some h)
       then (λ _, Failure error) <$> futures self !! h
       else futures self !! h)
  ∧ length (futures self') = length (futures self)
  ∧ _brokers self' = _brokers self
  ∧ _partitions self' = _partitions self
  ∧ _groups self' = _groups self
  ∧ _version self' = _version self
  ∧ _last_successful_refresh_ms self' = _last_successful_refresh_ms self
  ∧ _listeners self' = _listeners self
  ∧ _need_update self' = _need_update self
  ∧ _retry_backoff_ms self' = _retry_backoff_ms self
  ∧ _metadata_max_age_ms self' = _metadata_max_age_ms self
  ∧ (∀ (c : Call) (s : ClusterMetadata),
       _need_update (after for_code c s) =
       if is_successful_update c then false
       else if is_request c then true
       else _need_update s).
Proof.
  simpl. repeat split.
  - intros h. apply (resolve_lookup (failure error)).
  - apply resolve_length.
  - intros c s. unfold after. destruct c; simpl; try done.
    + unfold request_update.
      by destruct (match _ with None => _ | Some _ => _ end), (_future s).
    + unfold update_metadata. case_bool_decide as Hs.
      * by rewrite Hs.
      * destruct (single_topic_error metadata) as [[code topic]|]; done.
    + unfold remove_listener. by case_decide.
Qed.

Section Protocol.

Variable for_code : Z → ErrorType.

(** ** The two paths of [update_metadata] *)

Lemma update_metadata_diverted now metadata self error_code topic :
  single_topic_error metadata = Some (error_code, topic) →
  update_metadata for_code now metadata self =
  (failed_update now (Instance_of (for_code error_code) topic) self, []).
Proof. intros H. unfold update_metadata. by rewrite H. Qed.

Lemma update_metadata_merged now metadata self :
  single_topic_error metadata = None →
  let self' := (update_metadata for_code now metadata self).1 in
  _brokers self' = upsert_brokers (brokers_of metadata) (_brokers self)
  ∧ _partitions self' = foldl (ingest_topic for_code) ∅ (topics_of metadata)
  ∧ (update_metadata for_code now metadata self).2 = elements (_listeners self).
Proof. intros H. unfold update_metadata. by rewrite H. Qed.

Lemma single_topic_error_one bs error_code topic partitions :
  error_code ≠ 0 →
  single_topic_error (mkMetadataResponse bs [(error_code, topic, partitions)])
  = Some (error_code, topic).
Proof. intros H. unfold single_topic_error. simpl. by case_decide. Qed.

(** C2.  A response of exactly one topic with a non-zero error code takes
    the failure path: brokers, partitions, version, the need-update flag
    and [last_successful_refresh_ms] stay, the pending future (if any) is
    failed with the class of the code instantiated with the topic name,
    the reference to it is dropped and [last_refresh_ms] is stamped. *)
Theorem single_topic_error_fails_the_future
  (self : ClusterMetadata) (now : spec_float) (bs : list BrokerEntry)
  (error_code : Z) (topic : string) (partitions : list PartitionEntry) :
  error_code ≠ 0 →
  let metadata := mkMetadataResponse bs [(error_code, topic, partitions)] in
  let error := Instance_of (for_code error_code) topic in
  let self' := (update_metadata for_code now metadata self).1 in
  update_metadata for_code now metadata self = (failed_update now error self, [])
  ∧ _brokers self' = _brokers self
  ∧ _partitions self' = _partitions self
  ∧ _version self' = _version self
  ∧ _need_update self' = _need_update self
  ∧ _last_successful_refresh_ms self' = _last_successful_refresh_ms self
  ∧ (∀ h : Handle,
       futures self' !! h =
       if decide (_future self = Some h)
       then (λ _, Failure error) <$> futures self !! h
       else futures self !! h)
  ∧ _future self' = None
  ∧ _last_refresh_ms self' = Float now.
Proof.
  intros Hcode metadata error self'. subst self'.
  rewrite (update_metadata_diverted now metadata self error_code topic)
    by by apply single_topic_error_one.
  simpl. fold error. repeat split.
  intros h. apply (resolve_lookup (failure error)).
Qed.

(** ** The version counter *)

Lemma after_version c self :
  _version (after for_code c self) =
  if is_successful_update c then _version self + 1 else _version self.
Proof.
  unfold after. destruct c; simpl; try done.
  - unfold request_update.
    by destruct (match _ with None => _ | Some _ => _ end), (_future self).
  - unfold update_metadata. case_bool_decide as Hs.
    + by rewrite Hs.
    + destruct (single_topic_error metadata) as [[code topic]|]; done.
  - unfold remove_listener. by case_decide.
Qed.

Lemma response_kinds metadata :
  multi_topic_or_error_free metadata = negb (single_topic_in_error metadata)
  ∧ (single_topic_error metadata = None
     ↔ multi_topic_or_error_free metadata = true).
Proof.
  unfold multi_topic_or_error_free, single_topic_in_error, single_topic_error.
  destruct (topics_of metadata) as [|[[code topic] ps] [|entry ts]]; simpl;
    [done| |done].
  destruct (Z.eqb_spec code 0) as [->|Hcode]; simpl; [done|].
  by rewrite decide_True.
Qed.

Lemma successful_update_merges c :
  is_successful_update c = successful_update c.
Proof.
  destruct c; simpl; try done.
  destruct (response_kinds metadata) as [_ Hkind].
  case_bool_decide as Hs.
  - symmetry. by apply Hkind.
  - destruct (multi_topic_or_error_free metadata); [|done].
    by destruct Hs; apply Hkind.
Qed.

(** C5.  An [update_metadata] call with a response that is multi-topic or
    error-free adds 1 to the version; one with a single-topic error,
    [failed_update] and every other call leave it as it is.  So over any
    sequence of calls the version is its initial value plus the number of
    successful updates among them. *)
Theorem version_counts_successful_updates :
  (∀ now metadata self,
     multi_topic_or_error_free metadata = true →
     _version (update_metadata for_code now metadata self).1
     = _version self + 1)
  ∧ (∀ now metadata self,
       single_topic_in_error metadata = true →
       _version (update_metadata for_code now metadata self).1
       = _version self)
  ∧ (∀ metadata,
       multi_topic_or_error_free metadata
       = negb (single_topic_in_error metadata))
  ∧ (∀ now exception self,
       _version (failed_update now exception self) = _version self)
  ∧ (∀ (c : Call) (self : ClusterMetadata),
       _version (after for_code c self) =
       if successful_update c then _version self + 1 else _version self)
  ∧ (∀ c, is_successful_update c = successful_update c)
  ∧ (∀ (cs : list Call) (self : ClusterMetadata),
       _version (run for_code cs self) =
       _version self
       + Z.of_nat (length (filter (λ c, successful_update c) cs))).
Proof.
  assert (Hstep : ∀ c self,
            _version (after for_code c self) =
            if successful_update c then _version self + 1 else _version self).
  { intros c self. by rewrite after_version, successful_update_merges. }
  repeat split.
  - intros now metadata self Hkind.
    specialize (Hstep (call_update_metadata now metadata) self).
    unfold after in Hstep. simpl in Hstep. rewrite Hkind in Hstep.
    by destruct (update_metadata for_code now metadata self).
  - intros now metadata self Hkind.
    specialize (Hstep (call_update_metadata now metadata) self).
    unfold after in Hstep. simpl in Hstep.
    destruct (response_kinds metadata) as [Heq _]. rewrite Heq, Hkind in Hstep.
    by destruct (update_metadata for_code now metadata self).
  - apply response_kinds.
  - done.
  - apply successful_update_merges.
  - induction cs as [|c cs IH]; intros self; simpl; [lia|].
    rewrite IH, Hstep, filter_cons.
    destruct (successful_update c); simpl; lia.
Qed.

(** ** A response without topics *)

(** C10.  The short-circuit needs exactly one topic: a response with no
    topic is a success.  It empties the partition map, keeps every broker
    known before (changing only those the response lists), resolves the
    pending future with success, clears the need-update flag, adds 1 to
    the version, stamps both timestamps and calls every listener once. *)
Theorem empty_topics_is_a_success
  (self : ClusterMetadata) (now : spec_float) (bs : list BrokerEntry) :
  let metadata := mkMetadataResponse bs [] in
  let self' := (update_metadata for_code now metadata self).1 in
  let called := (update_metadata for_code now metadata self).2 in
  is_successful_update (call_update_metadata now metadata) = true
  ∧ _partitions self' = ∅
  ∧ (∀ topic, partitions_for_topic topic self' = None)
  ∧ (∀ node_id, is_Some (broker_metadata node_id self) →
                is_Some (broker_metadata node_id self'))
  ∧ (∀ node_id, node_id ∉ listed_nodes bs →
                broker_metadata node_id self' = broker_metadata node_id self)
  ∧ (∀ h : Handle,
       futures self' !! h =
       if decide (_future self = Some h)
       then (λ _, Success) <$> futures self !! h
       else futures self !! h)
  ∧ _future self' = None
  ∧ _need_update self' = false
  ∧ _version self' = _version self + 1
  ∧ _last_refresh_ms self' = Float now
  ∧ _last_successful_refresh_ms self' = Float now
  ∧ NoDup called
  ∧ (∀ listener, listener ∈ called ↔ listener ∈ _listeners self).
Proof.
  simpl. unfold update_metadata. simpl.
  repeat split; try done.
  - intros node_id Hknown. unfold broker_metadata in *. simpl.
    rewrite upsert_brokers_lookup. by destruct (last_broker node_id bs).
  - intros node_id Hnot. unfold broker_metadata. simpl.
    rewrite upsert_brokers_lookup.
    apply last_broker_None in Hnot. by rewrite Hnot.
  - intros h. apply (resolve_lookup success).
  - apply NoDup_elements.
  - by rewrite elem_of_elements.
  - by rewrite elem_of_elements.
Qed.

(** ** The partition map after a merge *)

Lemma partitions_for_topic_merged now metadata self topic :
  single_topic_error metadata = None →
  partitions_for_topic topic (update_metadata for_code now metadata self).1 =
  partition_indices <$> last_no_error for_code topic (topics_of metadata).
Proof.
  intros Hok. unfold partitions_for_topic.
  destruct (update_metadata_merged now metadata self Hok) as (_ & -> & _).
  rewrite ingest_topics_lookup, lookup_empty.
  destruct (last_no_error for_code topic (topics_of metadata)); [|done].
  simpl. by rewrite dom_leaders_of.
Qed.

Lemma listed_indices_cons topic (entry : TopicEntry) ts :
  listed_indices topic (entry :: ts) =
  (if decide (entry.1.2 = topic) then partition_indices entry.2 else ∅)
  ∪ listed_indices topic ts.
Proof. done. Qed.

Lemma unnamed_topic topic ts :
  length (filter (λ entry : TopicEntry, entry.1.2 = topic) ts) = 0%nat →
  last_no_error for_code topic ts = None ∧ listed_indices topic ts = ∅.
Proof.
  induction ts as [|[[code t] ps] ts IH]; [done|].
  rewrite filter_cons, listed_indices_cons. cbn [last_no_error fst snd].
  case_decide as Ht; [done|]. intros Hlen.
  destruct (IH Hlen) as [-> ->]. split; [|set_solver].
  case_decide as H; [by destruct H|done].
Qed.

Lemma named_once_listed topic ts ps :
  named_once topic ts →
  last_no_error for_code topic ts = Some ps →
  listed_indices topic ts = partition_indices ps.
Proof.
  unfold named_once.
  induction ts as [|[[code t] partitions] ts IH]; [done|].
  rewrite filter_cons, listed_indices_cons. cbn [last_no_error fst snd].
  case_decide as Ht.
  - cbn [length]. intros Hlen. injection Hlen as Hlen.
    destruct (unnamed_topic topic ts Hlen) as [-> ->].
    intros Hps. case_decide; [|done]. simplify_eq. set_solver.
  - intros Hlen. destruct (last_no_error for_code topic ts) as [ps'|] eqn:Hlast.
    + intros Hps. simplify_eq. rewrite <- (IH Hlen eq_refl). set_solver.
    + case_decide as H; [by destruct H|done].
Qed.

(** C1, as the code has it.  A merge builds the partition map from the
    response alone: the topics found afterwards are those that some entry
    reports without error, and the partitions of each are the indices of
    the last such entry naming it, which are all the indices listed for it
    when one entry names it; the cache before the call plays no part. *)
Theorem partitions_rebuilt_from_response
  (self : ClusterMetadata) (now : spec_float) (metadata : MetadataResponse) :
  single_topic_error metadata = None →
  let self' := (update_metadata for_code now metadata self).1 in
  let ts := topics_of metadata in
  (∀ topic, is_Some (partitions_for_topic topic self')
            ↔ topic ∈ no_error_topics for_code ts)
  ∧ (∀ topic, partitions_for_topic topic self' =
              partition_indices <$> last_no_error for_code topic ts)
  ∧ (∀ topic, topic ∈ no_error_topics for_code ts → named_once topic ts →
              partitions_for_topic topic self' = Some (listed_indices topic ts))
  ∧ (∀ (other : ClusterMetadata) (now' : spec_float),
       _partitions (update_metadata for_code now' metadata other).1
       = _partitions self').
Proof.
  intros Hok self' ts. subst self' ts. repeat split.
  - rewrite partitions_for_topic_merged by done.
    rewrite <- last_no_error_is_Some. by rewrite fmap_is_Some.
  - rewrite partitions_for_topic_merged by done.
    rewrite <- last_no_error_is_Some. by rewrite fmap_is_Some.
  - intros topic. by apply partitions_for_topic_merged.
  - intros topic Hin Honce. rewrite partitions_for_topic_merged by done.
    apply last_no_error_is_Some in Hin as [ps Hps]. rewrite Hps. simpl.
    by rewrite (named_once_listed topic _ ps).
  - intros other now'.
    destruct (update_metadata_merged now metadata self Hok) as (_ & -> & _).
    by destruct (update_metadata_merged now' metadata other Hok) as (_ & -> & _).
Qed.

(** ** The broker map after a merge *)

(** C3, as the code has it.  A merge upserts the response's brokers into
    the broker map: a node id the response lists gets the broker built from
    its last entry, any other node id keeps what it had; [brokers()] is the
    set of these values, which is exactly the set built from the response
    when every broker known before is listed again. *)
Theorem brokers_upserted_by_merge
  (self : ClusterMetadata) (now : spec_float) (metadata : MetadataResponse) :
  single_topic_error metadata = None →
  let self' := (update_metadata for_code now metadata self).1 in
  let bs := brokers_of metadata in
  (∀ node_id, broker_metadata node_id self' =
              match last_broker node_id bs with
              | Some b => Some b
              | None => broker_metadata node_id self
              end)
  ∧ (∀ b, b ∈ brokers self'
          ↔ (∃ node_id, last_broker node_id bs = Some b)
            ∨ (∃ node_id, (node_id ∉ listed_nodes bs)
                          ∧ broker_metadata node_id self = Some b))
  ∧ (dom (_brokers self) ⊆ listed_nodes bs →
     ∀ b, b ∈ brokers self' ↔ ∃ node_id, last_broker node_id bs = Some b).
Proof.
  intros Hok self' bs.
  assert (Hlookup : ∀ node_id, broker_metadata node_id self' =
                               match last_broker node_id bs with
                               | Some b => Some b
                               | None => broker_metadata node_id self
                               end).
  { intros node_id. unfold broker_metadata. subst self'.
    destruct (update_metadata_merged now metadata self Hok) as (-> & _).
    apply upsert_brokers_lookup. }
  assert (Hmem : ∀ b, b ∈ brokers self'
                      ↔ (∃ node_id, last_broker node_id bs = Some b)
                        ∨ (∃ node_id, (node_id ∉ listed_nodes bs)
                                      ∧ broker_metadata node_id self = Some b)).
  { intros b. rewrite elem_of_brokers. split.
    - intros [node_id Hb]. rewrite Hlookup in Hb.
      destruct (last_broker node_id bs) eqn:Hlast; [simplify_eq; left; by exists node_id|].
      right. exists node_id. by rewrite <- last_broker_None.
    - intros [[node_id Hb]|[node_id [Hnot Hb]]]; exists node_id;
        rewrite Hlookup; [by rewrite Hb|].
      apply last_broker_None in Hnot. by rewrite Hnot. }
  split; [done|]. split; [done|].
  intros Hsub b. rewrite Hmem. split; [|by left].
  intros [?|[node_id [Hnot Hb]]]; [done|]. exfalso. apply Hnot, Hsub.
  apply elem_of_dom. by exists b.
Qed.

(** ** Topics without partitions *)

Lemma last_no_error_elem topic ts ps :
  last_no_error for_code topic ts = Some ps →
  ∃ error_code, (error_code, topic, ps) ∈ ts ∧ for_code error_code = NoError.
Proof.
  induction ts as [|[[code t] partitions] ts IH]; [done|]. simpl.
  destruct (last_no_error for_code topic ts) as [ps'|].
  - intros ?; simplify_eq. destruct (IH eq_refl) as (c & Hin & Hc).
    exists c. split; [by right|done].
  - case_decide as H; [|done]. destruct H as [-> Hcode].
    intros ?; simplify_eq. exists code. split; [by left|done].
Qed.

Lemma after_partitions c self :
  is_successful_update c = false →
  _partitions (after for_code c self) = _partitions self.
Proof.
  unfold after. destruct c; simpl; try done.
  - intros _. unfold request_update.
    by destruct (match _ with None => _ | Some _ => _ end), (_future self).
  - case_bool_decide as Hs; [done|]. intros _. unfold update_metadata.
    destruct (single_topic_error metadata) as [[code topic]|]; done.
  - intros _. unfold remove_listener. by case_decide.
Qed.

Lemma after_no_empty_topic c self :
  populated for_code c →
  no_empty_topic (_partitions self) →
  no_empty_topic (_partitions (after for_code c self)).
Proof.
  intros Hpop Hinv. destruct (is_successful_update c) eqn:Hs;
    [|by rewrite after_partitions].
  destruct c as [| |now metadata| |]; try done.
  simpl in Hs. apply bool_decide_eq_true in Hs. unfold after. simpl.
  destruct (update_metadata for_code now metadata self) as [self' called] eqn:Hu.
  destruct (update_metadata_merged now metadata self Hs) as (_ & Hparts & _).
  rewrite Hu in Hparts. simpl in Hparts. rewrite Hparts.
  intros topic leaders. rewrite ingest_topics_lookup, lookup_empty.
  destruct (last_no_error for_code topic (topics_of metadata)) as [ps|] eqn:Hlast;
    [|done].
  intros ?; simplify_eq. rewrite leaders_of_empty.
  apply last_no_error_elem in Hlast as (code & Hin & Hcode).
  simpl in Hpop. rewrite Forall_forall in Hpop. by apply (Hpop _ Hin).
Qed.

Lemma run_no_empty_topic cs self :
  Forall (populated for_code) cs →
  no_empty_topic (_partitions self) →
  no_empty_topic (_partitions (run for_code cs self)).
Proof.
  intros Hpop. revert self. induction Hpop as [|c cs Hc Hcs IH]; [done|].
  intros self Hinv. simpl. by apply IH, after_no_empty_topic.
Qed.

(** C7, as the code has it.  In every state reached from a new cache by
    calls whose responses list at least one partition for each topic they
    report without error, [partitions_for_topic] returns not-found or a
    set that is not empty. *)
Theorem partitions_for_topic_not_empty
  (retry max_age : option Z) (cs : list Call) (topic : string) :
  Forall (populated for_code) cs →
  let self := run for_code cs (__init__ retry max_age) in
  partitions_for_topic topic self = None
  ∨ ∃ partitions, partitions_for_topic topic self = Some partitions
                  ∧ partitions ≠ ∅.
Proof.
  intros Hpop self.
  assert (Hinv : no_empty_topic (_partitions self)).
  { subst self. apply run_no_empty_topic; [done|].
    intros t leaders. simpl. by rewrite lookup_empty. }
  unfold partitions_for_topic.
  destruct (_partitions self !! topic) as [leaders|] eqn:Hl; [|by left].
  right. eexists. split; [done|]. intros Hdom.
  apply dom_empty_inv_L in Hdom. by apply (Hinv topic leaders).
Qed.

(** ** The pending future *)

Lemma request_update_cases self :
  let h := (request_update self).1 in
  let self' := (request_update self).2 in
  _need_update self' = true
  ∧ _future self' = Some h
  ∧ match _future self with
    | Some h0 =>
        if is_done_at (futures self) h0
        then h = length (futures self)
             ∧ futures self' = futures self ++ [Unresolved]
        else h = h0 ∧ futures self' = futures self
    | None => h = length (futures self)
              ∧ futures self' = futures self ++ [Unresolved]
    end.
Proof.
  unfold request_update. destruct (_future self) as [h0|]; [|done].
  by destruct (is_done_at (futures self) h0).
Qed.

Lemma request_update_pending self :
  pending (request_update self).1 (request_update self).2.
Proof.
  destruct (request_update_cases self) as (_ & Hf & Hcases).
  split; [done|]. unfold is_done_at.
  assert (Hnew : (futures self ++ [Unresolved]) !! length (futures self)
                 = Some Unresolved)
    by (by rewrite lookup_app_r, Nat.sub_diag).
  destruct (_future self) as [h0|].
  - destruct (is_done_at (futures self) h0) eqn:Hdone.
    + destruct Hcases as [-> ->]. by rewrite Hnew.
    + destruct Hcases as [-> ->]. done.
  - destruct Hcases as [-> ->]. by rewrite Hnew.
Qed.

Lemma pending_request_update h self :
  pending h self →
  (request_update self).1 = h ∧ (request_update self).2.(futures) = futures self.
Proof.
  intros [Hf Hdone]. destruct (request_update_cases self) as (_ & _ & Hcases).
  rewrite Hf, Hdone in Hcases. by destruct Hcases.
Qed.

Lemma after_pending c h self :
  is_resolution c = false → pending h self → pending h (after for_code c self).
Proof.
  intros Hc Hp. unfold after. destruct c; simpl; try done.
  - destruct (pending_request_update h self Hp) as [Hh Hfut].
    pose proof (request_update_pending self) as Hp'. by rewrite Hh in Hp'.
  - unfold remove_listener. by case_decide.
Qed.

Lemma run_pending cs h self :
  Forall (λ c, is_resolution c = false) cs →
  pending h self → pending h (run for_code cs self).
Proof.
  intros Hcs. revert self. induction Hcs as [|c cs Hc Hcs IH]; [done|].
  intros self Hp. simpl. by apply IH, after_pending.
Qed.

Lemma after_resolution c self :
  is_resolution c = true →
  _future (after for_code c self) = None
  ∧ length (futures (after for_code c self)) = length (futures self)
  ∧ ∀ h, _future self = Some h →
         is_done_at (futures (after for_code c self)) h
         = bool_decide (h < length (futures self))%nat.
Proof.
  assert (Hdone : ∀ method h,
            (∀ f, is_done (method f) = true) →
            _future self = Some h →
            is_done_at match _future self with
                       | Some h0 => resolve method h0 (futures self)
                       | None => futures self
                       end h
            = bool_decide (h < length (futures self))%nat).
  { intros method h Hm Hf. unfold is_done_at. rewrite resolve_lookup, Hf.
    rewrite decide_True by done. case_bool_decide as Hlt.
    - apply lookup_lt_is_Some in Hlt as [f ->]. simpl. apply Hm.
    - rewrite lookup_ge_None_2 by lia. done. }
  unfold after. destruct c as [|now e|now metadata| |]; try done; intros _; simpl.
  - split; [done|]. split; [apply resolve_length|].
    intros h. by apply Hdone.
  - unfold update_metadata.
    destruct (single_topic_error metadata) as [[code topic]|]; simpl.
    + split; [done|]. split; [apply resolve_length|].
      intros h. by apply Hdone.
    + split; [done|]. split; [apply resolve_length|].
      intros h. by apply Hdone.
Qed.

(** C6.  [request_update()] sets the need-update flag and returns the
    pending future, creating one only when the cache has none or has a
    resolved one; a second call with no resolution in between returns the
    same future; a call after [failed_update] or [update_metadata] has
    resolved it returns a new one, unresolved, while the old one is done. *)
Theorem request_update_shares_the_pending_future (self : ClusterMetadata) :
  well_formed self →
  let h := (request_update self).1 in
  let self' := (request_update self).2 in
  let created :=
    h = length (futures self) ∧ futures self' = futures self ++ [Unresolved] in
  _need_update self' = true
  ∧ _future self' = Some h
  ∧ futures self' !! h = Some Unresolved
  ∧ match _future self with
    | Some h0 =>
        if is_done_at (futures self) h0 then created
        else h = h0 ∧ futures self' = futures self
    | None => created
    end
  ∧ (request_update self').1 = h
  ∧ (∀ cs, Forall (λ c, is_resolution c = false) cs →
           (request_update (run for_code cs self')).1 = h)
  ∧ (∀ c, is_resolution c = true →
          let resolved := after for_code c self' in
          let h' := (request_update resolved).1 in
          h' ≠ h
          ∧ is_done_at (futures (request_update resolved).2) h = true
          ∧ futures (request_update resolved).2 !! h' = Some Unresolved).
Proof.
  intros Hwf h self' created.
  destruct (request_update_cases self) as (Hneed & Hfut & Hcases).
  pose proof (request_update_pending self) as Hp. fold h self' in Hp, Hfut, Hcases.
  assert (Hlt : (h < length (futures self'))%nat).
  { unfold well_formed in Hwf. destruct (_future self) as [h0|].
    - destruct (is_done_at (futures self) h0).
      + destruct Hcases as [-> ->]. rewrite length_app. simpl. lia.
      + by destruct Hcases as [-> ->].
    - destruct Hcases as [-> ->]. rewrite length_app. simpl. lia. }
  assert (Hun : futures self' !! h = Some Unresolved).
  { destruct Hp as [_ Hnot]. unfold is_done_at in Hnot.
    apply lookup_lt_is_Some in Hlt as [f Hf]. rewrite Hf in Hnot |- *.
    by destruct f. }
  repeat split; try done.
  - by apply pending_request_update.
  - intros cs Hcs. by apply pending_request_update, run_pending.
  - destruct (after_resolution c self' H) as (Hnone & Hlen & _).
    destruct (request_update_cases (after for_code c self')) as (_ & _ & Hc).
    rewrite Hnone in Hc. destruct Hc as [-> _]. lia.
  - destruct (after_resolution c self' H) as (Hnone & Hlen & Hdone).
    destruct (request_update_cases (after for_code c self')) as (_ & _ & Hc).
    rewrite Hnone in Hc. destruct Hc as [_ ->].
    specialize (Hdone h Hfut). rewrite bool_decide_eq_true_2 in Hdone by done.
    unfold is_done_at in *. rewrite lookup_app_l by lia. done.
  - destruct (after_resolution c self' H) as (Hnone & Hlen & _).
    destruct (request_update_cases (after for_code c self')) as (_ & _ & Hc).
    rewrite Hnone in Hc. destruct Hc as [-> ->].
    by rewrite lookup_app_r, Nat.sub_diag.
Qed.

(** The cache on its own never resolves a future twice: the future it
    refers to is unresolved in every state it reaches. *)
Lemma after_pending_unresolved c self :
  pending_unresolved self → pending_unresolved (after for_code c self).
Proof.
  intros Hinv. destruct (is_resolution c) eqn:Hc.
  - destruct (after_resolution c self Hc) as (Hnone & _).
    intros h. by rewrite Hnone.
  - unfold after. destruct c; simpl; try done.
    + intros h Hh.
      destruct (request_update_cases self) as (_ & Hf & Hcases).
      rewrite Hf in Hh. injection Hh as <-.
      destruct (_future self) as [h0|] eqn:Hf0.
      * specialize (Hinv h0 Hf0).
        assert (Hnot : is_done_at (futures self) h0 = false)
          by (unfold is_done_at; by rewrite Hinv).
        rewrite Hnot in Hcases.
        destruct Hcases as [Heq1 Heq2]. by rewrite Heq1, Heq2.
      * destruct Hcases as [Heq1 Heq2].
        by rewrite Heq1, Heq2, lookup_app_r, Nat.sub_diag.
    + unfold remove_listener. by case_decide.
Qed.

Lemma pending_invariant retry max_age cs :
  pending_unresolved (run for_code cs (__init__ retry max_age)).
Proof.
  assert (H : ∀ self, pending_unresolved self →
                      pending_unresolved (run for_code cs self)).
  { induction cs as [|c cs IH]; [done|]. intros self Hinv. simpl.
    by apply IH, after_pending_unresolved. }
  apply H. by intros h.
Qed.

Lemma pending_unresolved_well_formed self :
  pending_unresolved self → well_formed self.
Proof.
  unfold well_formed, pending_unresolved. intros Hinv.
  destruct (_future self) as [h|]; [|done].
  by apply (lookup_lt_Some _ _ Unresolved), Hinv.
Qed.

(** ** Exceptions and listeners *)





End Protocol.

(** ** The properties at concrete responses *)

(** C1 at a response that lists the topic "orders" once. *)
Lemma partitions_rebuilt_from_response_at_orders :
  single_topic_error orders_response = None
  ∧ partitions_for_topic "orders"
      (update_metadata Errors_for_code (ms 5) orders_response requested_cache).1
    = Some {[0; 1]}
  ∧ partitions_for_topic "ghost"
      (update_metadata Errors_for_code (ms 5) orders_response requested_cache).1
    = None.
Proof.
  split; [reflexivity|].
  pose proof (partitions_rebuilt_from_response Errors_for_code requested_cache
                (ms 5) orders_response eq_refl) as (_ & Hparts & _).
  split; rewrite Hparts; vm_compute; reflexivity.
Defined.

(** C1 fails as stated: when two entries name a topic, the indices of the
    first entry are listed for it in the response and are not returned. *)
Lemma twice_listed_topic_keeps_last_entry :
  single_topic_error twice_listed_response = None
  ∧ "a"%string ∈ no_error_topics Errors_for_code
                   (topics_of twice_listed_response)
  ∧ listed_indices "a" (topics_of twice_listed_response) = {[0; 1]}
  ∧ partitions_for_topic "a"
      (update_metadata Errors_for_code (ms 5) twice_listed_response new_cache).1
    = Some {[1]}
  ∧ partitions_for_topic "a"
      (update_metadata Errors_for_code (ms 5) twice_listed_response new_cache).1
    ≠ Some (listed_indices "a" (topics_of twice_listed_response)).
Proof.
  split; [reflexivity|]. split; [by vm_compute|].
  split; [by vm_compute|]. split; [by vm_compute|].
  by vm_compute.
Qed.

(** C4 at a new cache with the default configuration, read at 250
    milliseconds: the age deadline 300000 - 250 is the largest of the three;
    after a request it is the retry deadline 100 - 250 clamped at 0. *)
Example ttl_of_a_new_cache :
  ttl (ms 250) new_cache = inr (Float (ms 299750))
  ∧ ttl (ms 250) requested_cache = inr (Int 0)
  ∧ ttl (ms 40) requested_cache = inr (Float (ms 60)).
Proof. repeat split; by vm_compute. Qed.


(** C5 at nine calls: the four responses that are multi-topic or
    error-free (two topics with one error, one topic without error, two
    topics both in error, no topic) are counted, the single-topic error,
    the two failures, the request and the listener are not. *)
Lemma version_counts_successful_updates_at_mixed_calls :
  length (filter (λ c, successful_update c) mixed_calls) = 4%nat
  ∧ _version (run Errors_for_code mixed_calls new_cache)
    = _version new_cache + 4.
Proof.
  split; [reflexivity|].
  exact (proj2 (proj2 (proj2 (proj2 (proj2 (proj2
           (version_counts_successful_updates Errors_for_code))))))
           mixed_calls new_cache).
Defined.


(** C2 at the response that reports the single topic "solo" with code 5,
    while a future is pending. *)
Lemma single_topic_error_fails_the_future_at_solo :
  (5 : Z) ≠ 0
  ∧ update_metadata Errors_for_code (ms 1000) solo_response requested_cache
    = (failed_update (ms 1000) (Instance_of (Errors_for_code 5) "solo")
         requested_cache, [])
  ∧ futures
      (update_metadata Errors_for_code (ms 1000) solo_response requested_cache).1
    = [Failure (Instance_of LeaderNotAvailableError "solo")].
Proof.
  assert (Hcode : (5 : Z) ≠ 0) by lia.
  split; [exact Hcode|].
  pose proof (single_topic_error_fails_the_future Errors_for_code
                requested_cache (ms 1000) [] 5 "solo" [] Hcode) as (Hfail & _).
  split; [exact Hfail|].
  unfold solo_response. rewrite Hfail. reflexivity.
Defined.

(** C3 at the response of two brokers, on a cache that knows none. *)
Lemma brokers_upserted_by_merge_at_orders :
  single_topic_error orders_response = None
  ∧ broker_metadata 2
      (update_metadata Errors_for_code (ms 5) orders_response new_cache).1
    = Some (mkBrokerMetadata 2 "h2" 9092).
Proof.
  split; [reflexivity|].
  pose proof (brokers_upserted_by_merge Errors_for_code new_cache
                (ms 5) orders_response eq_refl) as (Hlookup & _).
  rewrite Hlookup. reflexivity.
Defined.

(** C3 fails as stated: a broker known before a merge and absent from the
    response is still returned after it. *)
Lemma absent_broker_survives_merge :
  single_topic_error second_broker_response = None
  ∧ broker_metadata 1
      (update_metadata Errors_for_code (ms 2) second_broker_response
         (update_metadata Errors_for_code (ms 1) first_broker_response
            new_cache).1).1
    = Some (mkBrokerMetadata 1 "h1" 9092)
  ∧ mkBrokerMetadata 1 "h1" 9092
    ∈ brokers
        (update_metadata Errors_for_code (ms 2) second_broker_response
           (update_metadata Errors_for_code (ms 1) first_broker_response
              new_cache).1).1
  ∧ brokers
      (update_metadata Errors_for_code (ms 2) second_broker_response
         (update_metadata Errors_for_code (ms 1) first_broker_response
            new_cache).1).1
    ≠ built_brokers (brokers_of second_broker_response).
Proof.
  split; [reflexivity|]. split; [reflexivity|].
  assert (Hin : mkBrokerMetadata 1 "h1" 9092
                ∈ brokers
                    (update_metadata Errors_for_code (ms 2) second_broker_response
                       (update_metadata Errors_for_code (ms 1) first_broker_response
                          new_cache).1).1).
  { apply elem_of_brokers. by exists 1. }
  split; [exact Hin|]. intros Heq. rewrite Heq in Hin.
  unfold built_brokers in Hin. simpl in Hin. set_solver.
Qed.

(** C6 on a new cache. *)
Lemma request_update_shares_the_pending_future_at_new_cache :
  well_formed new_cache
  ∧ (request_update (request_update new_cache).2).1
    = (request_update new_cache).1
  ∧ (request_update
       (failed_update (ms 7) (DriverError "timeout")
          (request_update new_cache).2)).1
    ≠ (request_update new_cache).1.
Proof.
  assert (Hwf : well_formed new_cache) by exact I.
  split; [exact Hwf|].
  pose proof (request_update_shares_the_pending_future Errors_for_code
                new_cache Hwf) as (_ & _ & _ & _ & Hsame & _ & Hnew).
  split; [exact Hsame|].
  exact (proj1 (Hnew (call_failed_update (ms 7) (DriverError "timeout")) eq_refl)).
Defined.

(** C7 fails as stated: a topic reported without error and without
    partitions is stored, and its set of partitions is empty. *)
Lemma topic_without_partitions_is_found_empty :
  partitions_for_topic "t"
    (run Errors_for_code [call_update_metadata (ms 1) no_partitions_response]
       new_cache)
  = Some ∅.
Proof. by vm_compute. Qed.

(** C7 after a request and the merge of a response whose only topic
    without error lists two partitions. *)
Lemma partitions_for_topic_not_empty_at_orders :
  Forall (populated Errors_for_code)
    [call_request_update; call_update_metadata (ms 5) orders_response]
  ∧ (partitions_for_topic "orders"
       (run Errors_for_code
          [call_request_update; call_update_metadata (ms 5) orders_response]
          (__init__ None None)) = None
     ∨ ∃ partitions,
         partitions_for_topic "orders"
           (run Errors_for_code
              [call_request_update; call_update_metadata (ms 5) orders_response]
              (__init__ None None)) = Some partitions
         ∧ partitions ≠ ∅).
Proof.
  assert (Hpop : Forall (populated Errors_for_code)
                   [call_request_update;
                    call_update_metadata (ms 5) orders_response]).
  { repeat constructor; simpl; intros Hcode; done. }
  split; [exact Hpop|].
  exact (partitions_for_topic_not_empty Errors_for_code None None
           [call_request_update; call_update_metadata (ms 5) orders_response]
           "orders" Hpop).
Defined.

(** The example of a merge worked through: the state after the response of
    two brokers and two topics, with two listeners registered. *)
Example merge_of_orders_response :
  let before := add_listener 7 (add_listener 3 requested_cache) in
  let result := update_metadata Errors_for_code (ms 5) orders_response before in
  partitions_for_topic "orders" result.1 = Some {[0; 1]}
  ∧ leader_for_partition ("orders"%string, 0) result.1 = Some 1
  ∧ partitions_for_topic "ghost" result.1 = None
  ∧ brokers result.1
    = {[mkBrokerMetadata 1 "h1" 9092; mkBrokerMetadata 2 "h2" 9092]}
  ∧ _version result.1 = _version before + 1
  ∧ futures result.1 = [Success]
  ∧ result.2 ≡ₚ [3%positive; 7%positive].
Proof.
  simpl. repeat split; try by vm_compute.
  vm_compute. apply perm_swap.
Qed.

(** ** Further properties of the cache *)

(** *** Facts that do not depend on the registry of errors *)

Lemma last_broker_node_id node_id bs b :
  last_broker node_id bs = Some b → nodeId b = node_id.
Proof.
  induction bs as [|[[n h] p] bs IH]; [done|]. simpl.
  destruct (last_broker node_id bs); [by intros; apply IH|].
  case_decide; [|done]. by intros [= <-].
Qed.

Lemma keyed_brokers_size self :
  keyed_by_node_id (_brokers self) →
  size (brokers self) = size (_brokers self).
Proof.
  intros Hinv. unfold brokers.
  rewrite size_list_to_set, length_fmap, length_map_to_list; [done|].
  apply NoDup_fmap_2_strong; [|apply NoDup_map_to_list].
  intros [k1 b1] [k2 b2] H1 H2. simpl. intros <-.
  apply elem_of_map_to_list in H1, H2.
  by rewrite <- (Hinv k1 b1 H1), <- (Hinv k2 b1 H2).
Qed.

Lemma fill_leaders_lookup ps (inner : gmap Z Z) partition :
  foldl (λ leaders (entry : PartitionEntry),
           <[entry.1.1.1.2 := entry.1.1.2]> leaders) inner ps !! partition
  = match last_leader partition ps with
    | Some leader => Some leader
    | None => inner !! partition
    end.
Proof.
  revert inner. induction ps as [|entry ps IH]; intros inner; [done|].
  cbn [foldl last_leader]. rewrite IH.
  destruct (last_leader partition ps); [done|].
  case_decide as Hp; [by rewrite <- Hp, lookup_insert_eq|].
  by rewrite lookup_insert_ne.
Qed.

Lemma times_called_absent (listener : Listener) (called : list Listener) :
  listener ∉ called → times_called listener called = 0%nat.
Proof.
  unfold times_called. induction called as [|l called IH]; [done|].
  intros Hnot. rewrite filter_cons_False by set_solver. apply IH. set_solver.
Qed.

Lemma times_called_elements (listener : Listener) (registered : gset Listener) :
  listener ∈ registered → times_called listener (elements registered) = 1%nat.
Proof.
  intros Hin. unfold times_called.
  apply elem_of_elements, list_elem_of_split in Hin as (l1 & l2 & Heq).
  pose proof (NoDup_elements registered) as Hnd. rewrite Heq in Hnd |- *.
  apply NoDup_app in Hnd as (_ & Hl1 & Hnd).
  apply NoDup_cons in Hnd as [Hl2 _].
  rewrite filter_app, filter_cons_True, length_app by done. simpl.
  assert (H1 : times_called listener l1 = 0%nat).
  { apply times_called_absent. intros Hx. apply (Hl1 listener Hx). by left. }
  assert (H2 : times_called listener l2 = 0%nat)
    by by apply times_called_absent.
  unfold times_called in H1, H2. by rewrite H1, H2.
Qed.

(** *** Signs and exact conversions in binary64 *)

Lemma iter_pos_nonneg p mrs :
  0 ≤ shr_m mrs → 0 ≤ shr_m (iter_pos shr_1 p mrs).
Proof.
  revert mrs. induction p as [p IH|p IH|]; intros mrs Hm; simpl.
  - apply IH, IH. destruct mrs as [[|[q|q|]|q] r s]; simpl in *; lia.
  - by apply IH, IH.
  - destruct mrs as [[|[q|q|]|q] r s]; simpl in *; lia.
Qed.

Lemma shr_fexp_nonneg m e l :
  0 ≤ m → 0 ≤ shr_m (shr_fexp 53 1024 m e l).1.
Proof.
  intros Hm. unfold shr_fexp, shr.
  assert (H0 : 0 ≤ shr_m (shr_record_of_loc m l)) by (by destruct l as [|[]]).
  destruct (fexp 53 1024 (Zdigits2 m + e) - e); simpl; try done.
  by apply iter_pos_nonneg.
Qed.

Lemma binary_round_aux_sign sx mx ex lx :
  0 ≤ mx → has_sign sx (binary_round_aux 53 1024 sx mx ex lx).
Proof.
  intros Hm. unfold binary_round_aux.
  pose proof (shr_fexp_nonneg mx ex lx Hm) as H1.
  destruct (shr_fexp 53 1024 mx ex lx) as [mrs' e']. simpl in H1.
  assert (H2 : 0 ≤ round_nearest_even (shr_m mrs') (loc_of_shr_record mrs')).
  { unfold round_nearest_even.
    destruct (loc_of_shr_record mrs') as [|[]]; try done; [|lia].
    destruct (Z.even (shr_m mrs')); lia. }
  pose proof (shr_fexp_nonneg _ e' loc_Exact H2) as H3.
  destruct (shr_fexp 53 1024 _ e' loc_Exact) as [mrs'' e'']. simpl in H3.
  destruct (shr_m mrs'') as [|m|m]; simpl; [done| |lia].
  by destruct (e'' <=? 1024 - 53).
Qed.

Lemma binary_normalize_sign m e :
  match m with
  | 0 => binary_normalize 53 1024 m e false = S754_zero false
  | Z.pos _ => has_sign false (binary_normalize 53 1024 m e false)
  | Z.neg _ => has_sign true (binary_normalize 53 1024 m e false)
  end.
Proof.
  destruct m as [|p|p]; simpl; [done| |]; unfold binary_round;
    destruct (shl_align _ _ _) as [mz ez]; by apply binary_round_aux_sign.
Qed.

Lemma has_sign_not_positive f :
  has_sign true f →
  py_gt (Float f) (Int 0) = false ∧ is_Some (position (Float f)).
Proof.
  intros Hsign. split; [|by destruct f; [eexists..|done|eexists]].
  destruct (py_gt (Float f) (Int 0)) eqn:Hgt; [|done].
  apply py_gt_true in Hgt as (p & q & Hp & Hq & Hc).
  destruct f as [s|s| |s m e]; simpl in *; simplify_eq; try done.
  apply Z.compare_gt_iff in Hc. unfold cond_Zopp in Hc.
  rewrite Z.mul_0_l in Hc.
  assert (0 ≤ 2 ^ (e + 1074)) by (apply Z.pow_nonneg; lia).
  pose proof (Pos2Z.is_pos m). nia.
Qed.

Lemma digits2_pos_size p : digits2_pos p = Pos.size p.
Proof. induction p; simpl; by rewrite ?IHp. Qed.

Lemma digits2_pos_iter p k :
  Z.pos (digits2_pos (Pos.iter xO p k)) = Z.pos (digits2_pos p) + Z.pos k.
Proof.
  revert p. induction k using Pos.peano_ind; intros p.
  - simpl. lia.
  - rewrite Pos.iter_succ. cbn [digits2_pos].
    rewrite Pos2Z.inj_succ, IHk. lia.
Qed.

Lemma iter_xO_value p k : Z.pos (Pos.iter xO p k) = Z.pos p * 2 ^ Z.pos k.
Proof.
  revert p. induction k using Pos.peano_ind; intros p.
  - simpl. lia.
  - rewrite Pos.iter_succ, Pos2Z.inj_xO, IHk, Pos2Z.inj_succ, Z.pow_succ_r by lia.
    lia.
Qed.

Lemma digits_small p : Z.pos p < 2 ^ 53 → Z.pos (digits2_pos p) ≤ 53.
Proof.
  intros Hp. rewrite digits2_pos_size.
  destruct (decide (Z.pos (Pos.size p) ≤ 53)) as [|Hbig]; [done|].
  exfalso. pose proof (Pos.size_le p) as Hle.
  assert (Hpow : 2 ^ 54 ≤ Z.pos (2 ^ Pos.size p)).
  { rewrite Pos2Z.inj_pow. apply Z.pow_le_mono_r; lia. }
  assert (Z.pos (2 ^ Pos.size p) ≤ Z.pos p~0) by (by apply Pos2Z.pos_le_pos).
  rewrite Pos2Z.inj_xO in *. lia.
Qed.

Lemma shr_fexp_exact mz ez :
  Z.pos (digits2_pos mz) = 53 → -1074 ≤ ez →
  shr_fexp 53 1024 (Z.pos mz) ez loc_Exact
  = ({| shr_m := Z.pos mz; shr_r := false; shr_s := false |}, ez).
Proof.
  intros Hd He. unfold shr_fexp. cbn [Zdigits2]. rewrite Hd.
  replace (fexp 53 1024 (53 + ez) - ez) with 0; [done|].
  unfold fexp, emin. lia.
Qed.

Lemma binary_round_aux_exact s mz ez :
  Z.pos (digits2_pos mz) = 53 → -1074 ≤ ez ≤ 971 →
  binary_round_aux 53 1024 s (Z.pos mz) ez loc_Exact = S754_finite s mz ez.
Proof.
  intros Hd He. unfold binary_round_aux.
  rewrite shr_fexp_exact by (done || lia). cbn [shr_m loc_of_shr_record
    round_nearest_even].
  rewrite shr_fexp_exact by (done || lia). cbn [shr_m].
  by rewrite (proj2 (Z.leb_le ez (1024 - 53))) by lia.
Qed.

(** A whole number below 2^53 is converted exactly. *)
Lemma float_of_int_small p :
  Z.pos p < 2 ^ 53 →
  ∃ m e, float_of_int (Z.pos p) = inr (S754_finite false m e)
         ∧ -52 ≤ e ≤ 0
         ∧ Z.pos m * 2 ^ (e + 1074) = Z.pos p * 2 ^ 1074.
Proof.
  intros Hp. pose proof (digits_small p Hp) as Hd.
  assert (Hd1 : 1 ≤ Z.pos (digits2_pos p)) by lia.
  unfold float_of_int, binary_normalize, binary_round.
  replace (fexp 53 1024 (Z.pos (digits2_pos p) + 0))
    with (Z.pos (digits2_pos p) - 53) by (unfold fexp, emin; lia).
  unfold shl_align.
  destruct (Z.pos (digits2_pos p) - 53 - 0) as [|k|k] eqn:Hk; [|lia|].
  - rewrite binary_round_aux_exact by lia.
    exists p, 0. split; [done|]. split; [lia|done].
  - rewrite binary_round_aux_exact.
    + eexists _, _. split; [done|]. split; [lia|].
      rewrite iter_xO_value.
      assert (Hpow : 2 ^ 1074
                     = 2 ^ Z.pos k * 2 ^ (Z.pos (digits2_pos p) - 53 + 1074)).
      { rewrite <- Z.pow_add_r by lia. f_equal. lia. }
      rewrite Hpow. ring.
    + rewrite digits2_pos_iter. lia.
    + lia.
Qed.

Lemma shl_align_value m e e0 :
  e0 ≤ e → Z.pos (shl_align m e e0).1 = Z.pos m * 2 ^ (e - e0).
Proof.
  intros He. unfold shl_align.
  destruct (e0 - e) as [|k|k] eqn:Hk; simpl.
  - replace (e - e0) with 0 by lia. lia.
  - lia.
  - rewrite iter_xO_value. f_equal. f_equal. lia.
Qed.

Lemma valid_binary_exponent s m e :
  valid_binary 53 1024 (S754_finite s m e) = true → -1074 ≤ e.
Proof.
  unfold valid_binary, bounded, canonical_mantissa, fexp, emin.
  intros [H _]%andb_prop. apply Z.eqb_eq in H. lia.
Qed.

Lemma py_le_At x y a b :
  position x = Some (At a) → position y = Some (At b) →
  py_le x y = true → a ≤ b.
Proof.
  unfold py_le. intros -> ->. simpl.
  destruct (Z.compare_spec a b); try done; lia.
Qed.

Lemma py_le_int_finite z s m e :
  py_le (Int z) (Float (S754_finite s m e)) = true →
  z * 2 ^ 1074 ≤ cond_Zopp s (Z.pos m) * 2 ^ (e + 1074).
Proof. by apply py_le_At. Qed.

Lemma py_le_int_zero z s :
  py_le (Int z) (Float (S754_zero s)) = true → z * 2 ^ 1074 ≤ 0.
Proof. by apply py_le_At. Qed.

(** Subtracting a float from a whole number that is not above it gives a
    float that is not above 0. *)
Lemma sub_not_positive z now :
  0 ≤ z < 2 ^ 53 →
  valid_binary 53 1024 now = true →
  py_le (Int z) (Float now) = true →
  ∃ d, py_sub (Int z) (Float now) = inr d
       ∧ py_gt d (Int 0) = false ∧ is_Some (position d).
Proof.
  intros Hz Hvalid Hle.
  assert (Hdone : ∀ f, has_sign true f ∨ f = S754_zero false →
            ∃ d, @inr ArithmeticRaised Number (Float f) = inr d
                 ∧ py_gt d (Int 0) = false ∧ is_Some (position d)).
  { intros f [Hs| ->]; eexists; (split; [done|]);
      [by apply has_sign_not_positive|]. split; [done|by eexists]. }
  unfold py_sub. destruct z as [|p|p]; [| |lia].
  - (* 0 - now *)
    change (float_of_int 0) with (inr (S754_zero false) : ArithmeticRaised + _).
    simpl and_then. apply Hdone.
    destruct now as [s|s| |s m e]; simpl.
    + destruct s; auto.
    + destruct s; [done|]. by left.
    + done.
    + left. destruct s; [|done]. exfalso.
      pose proof (valid_binary_exponent _ _ _ Hvalid).
      apply py_le_int_finite in Hle. unfold cond_Zopp in Hle.
      assert (0 < 2 ^ (e + 1074)) by (apply Z.pow_pos_nonneg; lia).
      pose proof (Pos2Z.is_pos m). nia.
  - (* a positive whole number *)
    destruct (float_of_int_small p) as (mz & ez & -> & Hez & Hexact); [lia|].
    simpl and_then. apply Hdone.
    destruct now as [s|s| |s m e].
    + exfalso. apply py_le_int_zero in Hle.
      assert (0 < 2 ^ 1074) by (by apply Z.pow_pos_nonneg).
      pose proof (Pos2Z.is_pos p). nia.
    + destruct s; [done|]. by left.
    + done.
    + pose proof (valid_binary_exponent _ _ _ Hvalid) as He.
      apply py_le_int_finite in Hle.
      cbn [SFsub]. set (e0 := Z.min ez e).
      rewrite !shl_align_value by lia.
      set (A := Z.pos mz * 2 ^ (ez - e0)).
      set (B := Z.pos m * 2 ^ (e - e0)).
      assert (HK : 0 < 2 ^ (e0 + 1074)) by (apply Z.pow_pos_nonneg; lia).
      assert (HA : Z.pos mz * 2 ^ (ez + 1074) = A * 2 ^ (e0 + 1074)).
      { unfold A. rewrite <- Z.mul_assoc, <- Z.pow_add_r by lia.
        f_equal. f_equal. lia. }
      assert (HB : Z.pos m * 2 ^ (e + 1074) = B * 2 ^ (e0 + 1074)).
      { unfold B. rewrite <- Z.mul_assoc, <- Z.pow_add_r by lia.
        f_equal. f_equal. lia. }
      change (cond_Zopp false A) with A.
      assert (Hdiff : A - cond_Zopp s B ≤ 0).
      { rewrite <- Hexact, HA in Hle. unfold cond_Zopp in *.
        destruct s; rewrite ?Z.mul_opp_l, HB in Hle; nia. }
      pose proof (binary_normalize_sign (A - cond_Zopp s B) e0) as Hsign.
      destruct (A - cond_Zopp s B); [by right|lia|by left].
Qed.

Lemma max_of_nonpositive age retry :
  py_gt age (Int 0) = false → is_Some (position age) →
  py_gt retry (Int 0) = false → is_Some (position retry) →
  is_zero (py_max3 age retry (Int 0)).
Proof.
  intros Hage Page Hretry Pretry. unfold py_max3.
  set (m := if py_gt retry age then retry else age).
  assert (Hm : py_gt m (Int 0) = false ∧ is_Some (position m))
    by (unfold m; by destruct (py_gt retry age)).
  destruct Hm as [Hm [p Hp]].
  destruct (py_gt (Int 0) m) eqn:H0; [done|].
  unfold is_zero, py_gt in *. rewrite Hp in *.
  change (position (Int 0)) with (Some (At 0)) in *.
  destruct p as [|units|]; cbn [position_compare] in *; try done.
  destruct (units ?= 0) eqn:E1; [|clear Hm|done].
  - by apply Z.compare_eq_iff in E1 as ->.
  - assert (Hneg : units < 0) by (by apply Z.compare_lt_iff).
    assert (Hgt : (0 ?= units) = Gt) by (by apply Z.compare_gt_iff).
    by rewrite Hgt in H0.
Qed.

(** *** The listener set *)

(** X7.  Adding a callback that is not registered and removing it again
    gives back the cache as it was. *)
Theorem add_then_remove_listener
  (self : ClusterMetadata) (listener : Listener) :
  listener ∉ _listeners self →
  remove_listener listener (add_listener listener self) = inr self.
Proof.
  intros Hnot. unfold remove_listener. simpl.
  rewrite decide_True by set_solver. f_equal.
  destruct self. simpl in *. f_equal. set_solver.
Qed.

(** X8.  The listeners form a set: adding a callback twice is adding it
    once, and after a removal that succeeded a second removal of the same
    callback raises. *)
Theorem listeners_form_a_set (self : ClusterMetadata) (listener : Listener) :
  add_listener listener (add_listener listener self)
  = add_listener listener self
  ∧ (∀ self', remove_listener listener self = inr self' →
              remove_listener listener self' = inl (KeyError listener)).
Proof.
  split.
  - unfold add_listener. simpl. f_equal. set_solver.
  - intros self'. unfold remove_listener at 1. case_decide; [|done].
    intros [= <-]. unfold remove_listener. simpl.
    rewrite decide_False by set_solver. done.
Qed.

(** *** The staleness clock *)

Lemma py_le_true x y :
  py_le x y = true
  ↔ is_Some (position x) ∧ is_Some (position y) ∧ py_gt x y = false.
Proof.
  unfold py_le, py_gt.
  destruct (position x) as [p|], (position y) as [q|];
    try (split; [done|by intros ([] & [] & _)]).
  destruct (position_compare p q); split; try done; by intros (_ & _ & ?).
Qed.

Lemma py_le_refl x : is_Some (position x) → py_le x x = true.
Proof. intros Hx. apply py_le_true. by rewrite py_gt_irrefl. Qed.

Lemma py_le_trans x y z :
  py_le x y = true → py_le y z = true → py_le x z = true.
Proof.
  unfold py_le.
  destruct (position x) as [p|], (position y) as [q|], (position z) as [r|];
    try done.
  destruct p, q, r; simpl; try done.
  destruct (Z.compare_spec units units0), (Z.compare_spec units0 units1),
    (Z.compare_spec units units1); try done; lia.
Qed.

(** X11.  As its docstring says, [request_update()] changes nothing but the
    reported [ttl()]: every lookup answers as before, the version and the
    listeners stay, and [ttl()] becomes the retry deadline clamped at 0,
    which is not more than [ttl()] was. *)
Theorem request_update_only_changes_ttl
  (self : ClusterMetadata) (now : spec_float) :
  let self' := (request_update self).2 in
  brokers self' = brokers self
  ∧ (∀ node_id, broker_metadata node_id self' = broker_metadata node_id self)
  ∧ (∀ topic, partitions_for_topic topic self'
              = partitions_for_topic topic self)
  ∧ (∀ partition, leader_for_partition partition self'
                  = leader_for_partition partition self)
  ∧ (∀ group, coordinator_for_group group self'
              = coordinator_for_group group self)
  ∧ topics self' = topics self
  ∧ _version self' = _version self
  ∧ _listeners self' = _listeners self
  ∧ ttl now self'
    = and_then (retry_deadline now self)
        (λ retry, inr (if py_gt retry (Int 0) then retry else Int 0))
  ∧ (∀ v, ttl now self = inr v →
          ∃ v', ttl now self' = inr v'
                ∧ py_gt v' v = false
                ∧ (is_Some (position v) → py_le v' v = true)).
Proof.
  assert (Hframe : _brokers (request_update self).2 = _brokers self
                   ∧ _partitions (request_update self).2 = _partitions self
                   ∧ _groups (request_update self).2 = _groups self
                   ∧ _version (request_update self).2 = _version self
                   ∧ _listeners (request_update self).2 = _listeners self).
  { unfold request_update.
    by destruct (match _ with None => _ | Some _ => _ end), (_future self). }
  destruct Hframe as (Hb & Hp & Hg & Hv & Hl). simpl.
  unfold brokers, broker_metadata, partitions_for_topic, leader_for_partition,
    coordinator_for_group, topics.
  rewrite Hb, Hp, Hg, Hv, Hl, ttl_requested.
  repeat split; try done.
  intros v Hv'. unfold ttl in Hv'.
  destruct (if _need_update self then _ else _) as [raised|age]; [done|].
  simpl in Hv'. destruct (retry_deadline now self) as [raised|retry]; [done|].
  simpl in *. injection Hv' as <-.
  destruct (py_max3_greatest age retry (Int 0)) as (_ & _ & Hretry & Hzero).
  simpl in Hretry, Hzero. eexists. split; [done|].
  assert (Hgt : py_gt (if py_gt retry (Int 0) then retry else Int 0)
                  (py_max3 age retry (Int 0)) = false)
    by (by destruct (py_gt retry (Int 0))).
  split; [done|]. intros Hplace. apply py_le_true. split; [|done].
  destruct (py_gt retry (Int 0)) eqn:Hr; [|by eexists].
  apply py_gt_true in Hr as (p & _ & -> & _). by eexists.
Qed.

Section Coverage.

Variable for_code : Z → ErrorType.

(** *** The two timestamps *)

Lemma after_timestamps c self :
  (_last_refresh_ms (after for_code c self) =
   match reading c with
   | Some now => Float now
   | None => _last_refresh_ms self
   end)
  ∧ (_last_successful_refresh_ms (after for_code c self) =
     if is_successful_update c
     then _last_refresh_ms (after for_code c self)
     else _last_successful_refresh_ms self).
Proof.
  unfold after. destruct c; simpl; try done.
  - unfold request_update.
    by destruct (match _ with None => _ | Some _ => _ end), (_future self).
  - unfold update_metadata. case_bool_decide as Hs.
    + by rewrite Hs.
    + by destruct (single_topic_error metadata) as [[code topic]|].
  - unfold remove_listener. by case_decide.
Qed.

Lemma run_timestamps cs start self :
  clock_monotone start cs →
  py_le (_last_successful_refresh_ms self) (_last_refresh_ms self) = true →
  py_le (_last_refresh_ms self) start = true →
  py_le (_last_successful_refresh_ms (run for_code cs self))
    (_last_refresh_ms (run for_code cs self)) = true.
Proof.
  revert start self. induction cs as [|c cs IH]; intros start self; simpl;
    [done|].
  intros Hclock Hinv Hstart. destruct (after_timestamps c self) as [Hr Hs].
  destruct (reading c) as [now|] eqn:Hnow.
  - destruct Hclock as [Hle Hclock].
    assert (Hnow' : py_le (Float now) (Float now) = true).
    { apply py_le_refl. by apply py_le_true in Hle as (_ & ? & _). }
    apply (IH (Float now)); [done| |by rewrite Hr].
    rewrite Hs, Hr. destruct (is_successful_update c); [done|].
    eauto using py_le_trans.
  - apply (IH start); [done| |by rewrite Hr]. rewrite Hs, Hr.
    destruct (is_successful_update c); [|done].
    apply py_le_refl. by apply py_le_true in Hstart as (? & _).
Qed.

(** X1.  When the clock never goes back and starts at or after 0, the last
    successful refresh is never later than the last refresh, in every state
    reached from a new cache. *)
Theorem last_success_not_after_last_refresh
  (retry max_age : option Z) (cs : list Call) :
  clock_monotone (Int 0) cs →
  let self := run for_code cs (__init__ retry max_age) in
  py_le (_last_successful_refresh_ms self) (_last_refresh_ms self) = true.
Proof. intros Hclock. by apply (run_timestamps cs (Int 0)). Qed.

(** *** The broker map over a sequence of calls *)

Lemma after_brokers c self :
  _brokers (after for_code c self) =
  match c with
  | call_update_metadata _ metadata =>
      if is_successful_update c
      then upsert_brokers (brokers_of metadata) (_brokers self)
      else _brokers self
  | _ => _brokers self
  end.
Proof.
  unfold after. destruct c; simpl; try done.
  - unfold request_update.
    by destruct (match _ with None => _ | Some _ => _ end), (_future self).
  - unfold update_metadata. case_bool_decide as Hs.
    + by rewrite Hs.
    + by destruct (single_topic_error metadata) as [[code topic]|].
  - unfold remove_listener. by case_decide.
Qed.

Lemma after_brokers_known c self node_id :
  is_Some (_brokers self !! node_id) →
  is_Some (_brokers (after for_code c self) !! node_id).
Proof.
  rewrite after_brokers. destruct c; try done.
  destruct (is_successful_update _); [|done].
  rewrite upsert_brokers_lookup. by destruct (last_broker _ _).
Qed.

(** X2.  No call ever forgets a broker: a node id for which
    [broker_metadata] finds a broker is found after any further sequence
    of calls. *)
Theorem brokers_are_never_forgotten
  (self : ClusterMetadata) (cs : list Call) (node_id : Z) :
  is_Some (broker_metadata node_id self) →
  is_Some (broker_metadata node_id (run for_code cs self)).
Proof.
  unfold broker_metadata. revert self.
  induction cs as [|c cs IH]; intros self Hknown; [done|].
  simpl. by apply IH, after_brokers_known.
Qed.

Lemma after_keyed_by_node_id c self :
  keyed_by_node_id (_brokers self) →
  keyed_by_node_id (_brokers (after for_code c self)).
Proof.
  intros Hinv. rewrite after_brokers. destruct c; try done.
  destruct (is_successful_update _); [|done].
  intros node_id b. rewrite upsert_brokers_lookup.
  destruct (last_broker node_id (brokers_of metadata)) eqn:Hlast.
  - intros [= <-]. by apply last_broker_node_id in Hlast.
  - apply Hinv.
Qed.

Lemma run_keyed_by_node_id cs self :
  keyed_by_node_id (_brokers self) →
  keyed_by_node_id (_brokers (run for_code cs self)).
Proof.
  revert self. induction cs as [|c cs IH]; intros self Hinv; [done|].
  simpl. by apply IH, after_keyed_by_node_id.
Qed.

(** X3.  In every state reached from a new cache, the broker found for a
    node id carries that node id, so that [brokers()] has as many elements
    as there are known node ids: no two of them collapse into one. *)
Theorem brokers_are_keyed_by_their_node_id
  (retry max_age : option Z) (cs : list Call) :
  let self := run for_code cs (__init__ retry max_age) in
  (∀ node_id b, broker_metadata node_id self = Some b → nodeId b = node_id)
  ∧ size (brokers self) = size (dom (_brokers self)).
Proof.
  intros self.
  assert (Hinv : keyed_by_node_id (_brokers self)).
  { apply run_keyed_by_node_id. intros node_id b. simpl.
    by rewrite lookup_empty. }
  split; [exact Hinv|]. by rewrite size_dom, keyed_brokers_size.
Qed.

(** *** Leaders after a merge *)

(** X4.  After a merge, the leader found for a partition of a topic is the
    one named by the last partition entry of that index in the last entry
    of the response that reports the topic without error; there is none
    when the response has no such entries, whatever was known before. *)
Theorem leader_is_the_last_one_listed
  (self : ClusterMetadata) (now : spec_float) (metadata : MetadataResponse)
  (topic : string) (partition : Z) :
  single_topic_error metadata = None →
  leader_for_partition (topic, partition)
    (update_metadata for_code now metadata self).1
  = last_no_error for_code topic (topics_of metadata)
      ≫= last_leader partition.
Proof.
  intros Hok. unfold leader_for_partition. simpl.
  destruct (update_metadata_merged for_code now metadata self Hok)
    as (_ & -> & _).
  rewrite ingest_topics_lookup, lookup_empty.
  destruct (last_no_error for_code topic (topics_of metadata)) as [ps|];
    [|done].
  simpl. unfold leaders_of. rewrite fill_leaders_lookup, lookup_empty.
  by destruct (last_leader partition ps).
Qed.

(** *** Group coordinators *)

Lemma after_groups c self :
  _groups (after for_code c self) = _groups self.
Proof.
  unfold after. destruct c; simpl; try done.
  - unfold request_update.
    by destruct (match _ with None => _ | Some _ => _ end), (_future self).
  - unfold update_metadata.
    by destruct (single_topic_error metadata) as [[code topic]|].
  - unfold remove_listener. by case_decide.
Qed.

(** X5.  Nothing in the class writes the group map: in every state reached
    from a new cache [coordinator_for_group] finds no coordinator. *)
Theorem coordinator_is_never_known
  (retry max_age : option Z) (cs : list Call) (group : string) :
  coordinator_for_group group (run for_code cs (__init__ retry max_age))
  = None.
Proof.
  unfold coordinator_for_group.
  assert (H : ∀ self, _groups (run for_code cs self) = _groups self).
  { induction cs as [|c cs IH]; intros self; [done|].
    simpl. by rewrite IH, after_groups. }
  by rewrite H.
Qed.

(** *** Listeners over a sequence of calls *)

Lemma notified_by_times c self listener :
  listener ∈ _listeners self →
  times_called listener (notified_by for_code c self)
  = if is_successful_update c then 1%nat else 0%nat.
Proof.
  intros Hin. unfold notified_by. destruct c; simpl; try done.
  - unfold update_metadata. case_bool_decide as Hs.
    + rewrite Hs. simpl. by apply times_called_elements.
    + by destruct (single_topic_error metadata) as [[code topic]|].
  - unfold remove_listener. by case_decide.
Qed.

Lemma after_listener_kept c self listener :
  c ≠ call_remove_listener listener →
  listener ∈ _listeners self →
  listener ∈ _listeners (after for_code c self).
Proof.
  intros Hc Hin. unfold after. destruct c; simpl; try done.
  - unfold request_update.
    by destruct (match _ with None => _ | Some _ => _ end), (_future self).
  - unfold update_metadata.
    by destruct (single_topic_error metadata) as [[code topic]|].
  - set_solver.
  - unfold remove_listener. case_decide; [simpl|done].
    assert (listener0 ≠ listener) by congruence. set_solver.
Qed.

(** X6.  A listener that is registered and is not removed is called
    exactly once by every [update_metadata] that is not turned into a
    failure, and by nothing else: over a sequence of calls it is called as
    many times as the sequence has such updates. *)
Theorem listener_called_once_per_successful_update
  (self : ClusterMetadata) (cs : list Call) (listener : Listener) :
  listener ∈ _listeners self →
  Forall (λ c, c ≠ call_remove_listener listener) cs →
  times_called listener (notifications for_code cs self)
  = length (filter (λ c, is_successful_update c) cs).
Proof.
  intros Hin Hcs. revert self Hin.
  induction Hcs as [|c cs Hc Hcs IH]; intros self Hin; [done|].
  simpl. unfold times_called in *.
  rewrite filter_app, length_app, (IH (after for_code c self))
    by by apply after_listener_kept.
  pose proof (notified_by_times c self listener Hin) as Hn.
  unfold times_called in Hn. rewrite Hn, filter_cons.
  by destruct (is_successful_update c).
Qed.

(** *** The staleness clock over time and over calls *)

Lemma after_config c self :
  _retry_backoff_ms (after for_code c self) = _retry_backoff_ms self
  ∧ _metadata_max_age_ms (after for_code c self) = _metadata_max_age_ms self.
Proof.
  unfold after. destruct c; simpl; try done.
  - unfold request_update.
    by destruct (match _ with None => _ | Some _ => _ end), (_future self).
  - unfold update_metadata.
    by destruct (single_topic_error metadata) as [[code topic]|].
  - unfold remove_listener. by case_decide.
Qed.

(** *** Futures once resolved *)

Lemma after_futures_kept c self h f :
  pending_unresolved self →
  futures self !! h = Some f → is_done f = true →
  futures (after for_code c self) !! h = Some f.
Proof.
  intros Hinv Hf Hdone.
  assert (Hres : ∀ method,
            match _future self with
            | Some h0 => resolve method h0 (futures self)
            | None => futures self
            end !! h = Some f).
  { intros method. rewrite resolve_lookup. case_decide as Hh; [|done].
    rewrite (Hinv h Hh) in Hf. by simplify_eq. }
  unfold after. destruct c; simpl; try done.
  - destruct (request_update_cases self) as (_ & _ & Hcases).
    assert (Happ : (futures self ++ [Unresolved]) !! h = Some f).
    { rewrite lookup_app_l; [done|]. by apply lookup_lt_Some in Hf. }
    destruct (_future self) as [h0|].
    + destruct (is_done_at (futures self) h0);
        destruct Hcases as [_ ->]; done.
    + by destruct Hcases as [_ ->].
  - unfold update_metadata.
    destruct (single_topic_error metadata) as [[code topic]|]; apply Hres.
  - unfold remove_listener. by case_decide.
Qed.

Lemma run_futures_kept cs self h f :
  pending_unresolved self →
  futures self !! h = Some f → is_done f = true →
  futures (run for_code cs self) !! h = Some f.
Proof.
  revert self. induction cs as [|c cs IH]; intros self Hinv Hf Hdone; [done|].
  simpl. apply IH; [by apply after_pending_unresolved| |done].
  by apply after_futures_kept.
Qed.

Lemma run_pending_unresolved cs self :
  pending_unresolved self → pending_unresolved (run for_code cs self).
Proof.
  revert self. induction cs as [|c cs IH]; intros self Hinv; [done|].
  simpl. by apply IH, after_pending_unresolved.
Qed.

(** X12.  The cache resolves a future once: in a state reached from a new
    cache, a future that is done keeps its outcome through every further
    sequence of calls. *)
Theorem resolved_future_keeps_its_outcome
  (retry max_age : option Z) (cs later : list Call) (h : Handle) (f : Future) :
  let self := run for_code cs (__init__ retry max_age) in
  futures self !! h = Some f →
  is_done f = true →
  futures (run for_code later self) !! h = Some f.
Proof.
  intros self Hf Hdone. apply run_futures_kept; [|done..].
  apply run_pending_unresolved. by intros h0.
Qed.

(** *** Merges composed *)

(** X13.  Merging a response a second time changes neither the brokers nor
    the partitions, and nothing else but the version and the timestamps:
    the groups, the listeners, the need-update flag, the pending future,
    the store of futures and the configuration are those after the first
    merge, the version is one more, two more than at the start, and both
    timestamps are the later reading. *)
Theorem merge_is_idempotent_on_the_maps
  (self : ClusterMetadata) (now later : spec_float)
  (metadata : MetadataResponse) :
  single_topic_error metadata = None →
  let once := (update_metadata for_code now metadata self).1 in
  let twice := (update_metadata for_code later metadata once).1 in
  _brokers twice = _brokers once
  ∧ _partitions twice = _partitions once
  ∧ brokers twice = brokers once
  ∧ _groups twice = _groups once
  ∧ _listeners twice = _listeners once
  ∧ _need_update twice = _need_update once
  ∧ _future twice = _future once
  ∧ futures twice = futures once
  ∧ _retry_backoff_ms twice = _retry_backoff_ms once
  ∧ _metadata_max_age_ms twice = _metadata_max_age_ms once
  ∧ _version twice = _version once + 1
  ∧ _version twice = _version self + 2
  ∧ _last_refresh_ms twice = Float later
  ∧ _last_successful_refresh_ms twice = Float later.
Proof.
  intros Hok once twice.
  destruct (update_metadata_merged for_code now metadata self Hok)
    as (Hb1 & Hp1 & _).
  destruct (update_metadata_merged for_code later metadata once Hok)
    as (Hb2 & Hp2 & _).
  fold once in Hb1, Hp1. fold twice in Hb2, Hp2.
  assert (Hb : _brokers twice = _brokers once).
  { rewrite Hb2. apply map_eq. intros node_id.
    rewrite upsert_brokers_lookup, Hb1, upsert_brokers_lookup.
    by destruct (last_broker node_id (brokers_of metadata)). }
  assert (Hrest : _groups twice = _groups once
                  ∧ _listeners twice = _listeners once
                  ∧ _need_update twice = _need_update once
                  ∧ _future twice = _future once
                  ∧ futures twice = futures once
                  ∧ _retry_backoff_ms twice = _retry_backoff_ms once
                  ∧ _metadata_max_age_ms twice = _metadata_max_age_ms once
                  ∧ _version twice = _version once + 1
                  ∧ _version twice = _version self + 2
                  ∧ _last_refresh_ms twice = Float later
                  ∧ _last_successful_refresh_ms twice = Float later).
  { subst once twice. unfold update_metadata. rewrite Hok. simpl.
    repeat split; lia. }
  split; [done|]. split; [by rewrite Hp2, Hp1|].
  split; [by unfold brokers; rewrite Hb|]. exact Hrest.
Qed.

(** X14.  Only a response of exactly one topic can fail the refresh: a
    response of another number of topics, none reported without error, is a
    success that leaves no topic known. *)
Theorem all_topics_in_error_is_a_success
  (self : ClusterMetadata) (now : spec_float) (metadata : MetadataResponse) :
  length (topics_of metadata) ≠ 1%nat →
  Forall (λ entry : TopicEntry, for_code entry.1.1 ≠ NoError)
         (topics_of metadata) →
  let self' := (update_metadata for_code now metadata self).1 in
  topics self' = ∅
  ∧ (∀ topic, partitions_for_topic topic self' = None)
  ∧ _version self' = _version self + 1
  ∧ _need_update self' = false
  ∧ _last_successful_refresh_ms self' = Float now.
Proof.
  intros Hlen Herr self'.
  assert (Hok : single_topic_error metadata = None).
  { unfold single_topic_error.
    destruct (topics_of metadata) as [|[[code t] ps] [|e ts]]; done. }
  assert (Hnone : ∀ topic,
            last_no_error for_code topic (topics_of metadata) = None).
  { intros topic.
    destruct (last_no_error for_code topic (topics_of metadata)) as [ps|] eqn:Hl;
      [|done].
    apply last_no_error_elem in Hl as (code & Hin & Hcode).
    rewrite Forall_forall in Herr. by destruct (Herr _ Hin). }
  assert (Hparts : ∀ topic, _partitions self' !! topic = None).
  { intros topic. subst self'.
    destruct (update_metadata_merged for_code now metadata self Hok)
      as (_ & -> & _).
    by rewrite ingest_topics_lookup, Hnone, lookup_empty. }
  split; [|split].
  - unfold topics. apply set_eq. intros topic.
    rewrite elem_of_dom, Hparts. split; [by intros []|set_solver].
  - intros topic. unfold partitions_for_topic. by rewrite Hparts.
  - subst self'. unfold update_metadata. by rewrite Hok.
Qed.

(** *** The need-update flag and the configuration over calls *)

Lemma after_need_update c self :
  _need_update (after for_code c self) =
  if is_successful_update c then false
  else if is_request c then true
  else _need_update self.
Proof.
  unfold after. destruct c; simpl; try done.
  - unfold request_update.
    by destruct (match _ with None => _ | Some _ => _ end), (_future self).
  - unfold update_metadata. case_bool_decide as Hs.
    + by rewrite Hs.
    + by destruct (single_topic_error metadata) as [[code topic]|].
  - unfold remove_listener. by case_decide.
Qed.

(** X15.  A requested update stays requested until a merge: through calls
    among which no [update_metadata] succeeds, failures included, the
    need-update flag stays set. *)
Theorem request_outlives_failures (self : ClusterMetadata) (cs : list Call) :
  _need_update self = true →
  Forall (λ c, is_successful_update c = false) cs →
  _need_update (run for_code cs self) = true.
Proof.
  intros Hneed Hcs. revert self Hneed.
  induction Hcs as [|c cs Hc Hcs IH]; intros self Hneed; [done|].
  simpl. apply IH. rewrite after_need_update, Hc, Hneed.
  by destruct (is_request c).
Qed.

Lemma run_config cs self :
  _retry_backoff_ms (run for_code cs self) = _retry_backoff_ms self
  ∧ _metadata_max_age_ms (run for_code cs self) = _metadata_max_age_ms self.
Proof.
  revert self. induction cs as [|c cs IH]; intros self; [done|].
  simpl. destruct (IH (after for_code c self)) as [-> ->].
  apply after_config.
Qed.

(** X16.  The configuration is fixed at construction: a key that is given
    replaces the class attribute (100 and 300000 milliseconds), and no call
    changes either value afterwards. *)
Theorem configuration_is_fixed
  (retry max_age : option Z) (cs : list Call) :
  let self := run for_code cs (__init__ retry max_age) in
  _retry_backoff_ms self = default 100 retry
  ∧ _metadata_max_age_ms self = default 300000 max_age.
Proof. intros self. apply (run_config cs (__init__ retry max_age)). Qed.

Lemma run_never_refreshed cs self :
  Forall (λ c, reading c = None) cs →
  _last_refresh_ms (run for_code cs self) = _last_refresh_ms self
  ∧ _last_successful_refresh_ms (run for_code cs self)
    = _last_successful_refresh_ms self.
Proof.
  intros Hcs. revert self. induction Hcs as [|c cs Hc Hcs IH]; intros self;
    [done|].
  simpl. destruct (IH (after for_code c self)) as [-> ->].
  destruct (after_timestamps c self) as [Hr Hs]. rewrite Hc in Hr.
  split; [done|]. rewrite Hs.
  destruct c; simpl in *; try done.
Qed.

(** X17.  A cache that has never been refreshed counts its age from time
    0: for a configuration of whole numbers from 0 to below 2^53, which
    binary64 holds exactly, once the clock reads at least
    [metadata_max_age_ms] and [retry_backoff_ms], [ttl()] returns 0,
    whether or not an update was requested. *)
Theorem never_refreshed_cache_is_stale
  (retry max_age : option Z) (cs : list Call) (now : spec_float) :
  Forall (λ c, reading c = None) cs →
  valid_binary 53 1024 now = true →
  0 ≤ default 300000 max_age < 2 ^ 53 →
  0 ≤ default 100 retry < 2 ^ 53 →
  py_le (Int (default 300000 max_age)) (Float now) = true →
  py_le (Int (default 100 retry)) (Float now) = true →
  ∃ v, ttl now (run for_code cs (__init__ retry max_age)) = inr v
       ∧ is_zero v.
Proof.
  intros Hcs Hvalid Hage Hretry Hage_le Hretry_le.
  destruct (run_never_refreshed cs (__init__ retry max_age) Hcs)
    as [Hr Hs].
  destruct (run_config cs (__init__ retry max_age)) as [Hb Ha].
  destruct (sub_not_positive _ now Hage Hvalid Hage_le)
    as (age & Hage_d & Hage_gt & Hage_p).
  destruct (sub_not_positive _ now Hretry Hvalid Hretry_le)
    as (ret & Hret_d & Hret_gt & Hret_p).
  unfold ttl, age_deadline, retry_deadline. rewrite Hr, Hs, Hb, Ha.
  cbn [__init__ _last_refresh_ms _last_successful_refresh_ms
       _retry_backoff_ms _metadata_max_age_ms py_add and_then Z.add].
  rewrite !Z.add_0_l, Hret_d.
  destruct (_need_update _).
  - simpl. eexists. split; [done|].
    apply max_of_nonpositive; (done || by eexists).
  - rewrite Hage_d. simpl. eexists. split; [done|].
    by apply max_of_nonpositive.
Qed.

Lemma float_of_int_returns z :
  0 ≤ z < 2 ^ 53 → ∃ f, float_of_int z = inr f.
Proof.
  intros Hz. destruct z as [|p|p]; [by eexists| |lia].
  destruct (float_of_int_small p) as (m & e & -> & _); [lia|]. by eexists.
Qed.

Lemma deadline_returns stamp config now :
  is_stamp stamp → 0 ≤ config < 2 ^ 53 →
  ∃ v, and_then (py_add stamp (Int config)) (λ sum, py_sub sum (Float now))
       = inr v.
Proof.
  intros [->|[f ->]] Hconfig;
    destruct (float_of_int_returns config Hconfig) as [g Hg];
    cbn [py_add py_sub and_then]; rewrite ?Z.add_0_l, Hg; by eexists.
Qed.

Lemma run_stamps cs self :
  is_stamp (_last_refresh_ms self) →
  is_stamp (_last_successful_refresh_ms self) →
  is_stamp (_last_refresh_ms (run for_code cs self))
  ∧ is_stamp (_last_successful_refresh_ms (run for_code cs self)).
Proof.
  revert self. induction cs as [|c cs IH]; intros self Hr Hs; [done|].
  simpl. destruct (after_timestamps c self) as [Hr' Hs'].
  assert (is_stamp (_last_refresh_ms (after for_code c self))).
  { rewrite Hr'. destruct (reading c); [right; by eexists|done]. }
  apply IH; [done|]. rewrite Hs'. by destruct (is_successful_update c).
Qed.

(** X21.  With a configuration of whole numbers from 0 to below 2^53,
    [ttl()] returns a number for every clock reading in every state
    reached from a new cache: no conversion of an [int] overflows. *)
Theorem ttl_returns_in_reached_states
  (retry max_age : option Z) (cs : list Call) (now : spec_float) :
  0 ≤ default 300000 max_age < 2 ^ 53 →
  0 ≤ default 100 retry < 2 ^ 53 →
  ∃ v, ttl now (run for_code cs (__init__ retry max_age)) = inr v.
Proof.
  intros Hage Hretry.
  destruct (run_stamps cs (__init__ retry max_age)) as [Hr Hs];
    [by left..|].
  destruct (run_config cs (__init__ retry max_age)) as [Hb Ha].
  cbn [__init__ _retry_backoff_ms _metadata_max_age_ms] in Hb, Ha.
  destruct (deadline_returns _ _ now Hr Hretry) as [r Hr'].
  destruct (deadline_returns _ _ now Hs Hage) as [a Ha'].
  unfold ttl, age_deadline, retry_deadline. rewrite Hb, Ha, Hr'.
  destruct (_need_update _); [by eexists|].
  rewrite Ha'. by eexists.
Qed.

(** *** The topics after a merge *)

(** X18.  After a merge, [topics()] is the set of topics that the response
    reports without error, whatever was known before, and these are the
    topics whose partitions are found. *)
Theorem topics_are_those_without_error
  (self : ClusterMetadata) (now : spec_float) (metadata : MetadataResponse) :
  single_topic_error metadata = None →
  let self' := (update_metadata for_code now metadata self).1 in
  topics self' = no_error_topics for_code (topics_of metadata)
  ∧ (∀ topic, topic ∈ topics self'
              ↔ is_Some (partitions_for_topic topic self')).
Proof.
  intros Hok self'. split.
  - unfold topics. apply set_eq. intros topic. subst self'.
    destruct (update_metadata_merged for_code now metadata self Hok)
      as (_ & -> & _).
    rewrite elem_of_dom, ingest_topics_lookup, lookup_empty.
    rewrite <- last_no_error_is_Some.
    destruct (last_no_error for_code topic (topics_of metadata)); [|done].
    split; eauto.
  - intros topic. unfold topics, partitions_for_topic.
    rewrite elem_of_dom. by destruct (_partitions self' !! topic).
Qed.

(** *** Failed attempts over a sequence of calls *)

Lemma notified_by_failure c self :
  is_successful_update c = false → notified_by for_code c self = [].
Proof.
  unfold notified_by. destruct c; simpl; try done.
  - case_bool_decide as Hs; [done|]. intros _. unfold update_metadata.
    by destruct (single_topic_error metadata) as [[code topic]|].
  - intros _. unfold remove_listener. by case_decide.
Qed.

(** X19.  Refreshes that fail are invisible to the lookups: through any
    calls among which no [update_metadata] succeeds, the brokers, the
    partitions and the version stay as they were and no listener is
    called. *)
Theorem failures_leave_the_view_untouched
  (self : ClusterMetadata) (cs : list Call) :
  Forall (λ c, is_successful_update c = false) cs →
  _brokers (run for_code cs self) = _brokers self
  ∧ _partitions (run for_code cs self) = _partitions self
  ∧ _version (run for_code cs self) = _version self
  ∧ notifications for_code cs self = [].
Proof.
  intros Hcs. revert self.
  induction Hcs as [|c cs Hc Hcs IH]; intros self; [done|].
  simpl. destruct (IH (after for_code c self)) as (-> & -> & -> & ->).
  rewrite after_brokers, after_partitions, after_version, Hc,
    notified_by_failure by done.
  by destruct c.
Qed.

(** *** The handshake of a request and the next attempt *)

Lemma after_unresolved_kept c self h :
  is_resolution c = false →
  _future self = Some h ∧ futures self !! h = Some Unresolved →
  _future (after for_code c self) = Some h
  ∧ futures (after for_code c self) !! h = Some Unresolved.
Proof.
  intros Hc [Hf Hun]. unfold after. destruct c; simpl; try done.
  - assert (Hp : pending h self)
      by (split; [done|]; unfold is_done_at; by rewrite Hun).
    destruct (pending_request_update h self Hp) as [Hh Hfut].
    destruct (request_update_cases self) as (_ & Hf' & _).
    by rewrite Hfut, Hf', Hh.
  - unfold remove_listener. by case_decide.
Qed.

Lemma request_update_unresolved self :
  well_formed self →
  futures (request_update self).2 !! (request_update self).1 = Some Unresolved.
Proof.
  intros Hwf. destruct (request_update_cases self) as (_ & _ & Hcases).
  pose proof (request_update_pending self) as [_ Hnot].
  unfold is_done_at in Hnot. unfold well_formed in Hwf.
  destruct (_future self) as [h0|].
  - destruct (is_done_at (futures self) h0).
    + destruct Hcases as [-> ->]. by rewrite lookup_app_r, Nat.sub_diag.
    + destruct Hcases as [Hh Hfut]. rewrite Hh, Hfut in Hnot |- *.
      apply lookup_lt_is_Some in Hwf as [f Hf]. rewrite Hf in Hnot |- *.
      by destruct f.
  - destruct Hcases as [-> ->]. by rewrite lookup_app_r, Nat.sub_diag.
Qed.

(** X20.  The future that [request_update()] returns is resolved by the
    next refresh attempt, with the outcome of that attempt: the exception
    given to [failed_update], success for a merge, and the error of the
    topic for a response of one topic in error.  Requests and listener
    calls in between do not change which future that is. *)
Theorem request_is_answered_by_the_next_attempt
  (self : ClusterMetadata) (between : list Call) (now : spec_float) :
  well_formed self →
  Forall (λ c, is_resolution c = false) between →
  let h := (request_update self).1 in
  let waiting := run for_code between (request_update self).2 in
  (∀ exception,
     futures (failed_update now exception waiting) !! h
     = Some (Failure exception))
  ∧ (∀ metadata,
       futures (update_metadata for_code now metadata waiting).1 !! h
       = Some match single_topic_error metadata with
              | Some (error_code, topic) =>
                  Failure (Instance_of (for_code error_code) topic)
              | None => Success
              end).
Proof.
  intros Hwf Hbetween h waiting.
  assert (Hheld : _future waiting = Some h
                  ∧ futures waiting !! h = Some Unresolved).
  { subst waiting h.
    assert (Hstart : _future (request_update self).2
                     = Some (request_update self).1
                     ∧ futures (request_update self).2
                         !! (request_update self).1 = Some Unresolved).
    { split; [|by apply request_update_unresolved].
      by destruct (request_update_cases self) as (_ & ? & _). }
    revert Hstart. generalize (request_update self).2 (request_update self).1.
    induction Hbetween as [|c cs Hc Hcs IH]; intros s h Hheld; [done|].
    simpl. by apply IH, after_unresolved_kept. }
  destruct Hheld as [Hf Hun].
  assert (Hres : ∀ method,
            match _future waiting with
            | Some h0 => resolve method h0 (futures waiting)
            | None => futures waiting
            end !! h = Some (method Unresolved)).
  { intros method. by rewrite resolve_lookup, decide_True, Hun. }
  split.
  - intros exception. apply (Hres (failure exception)).
  - intros metadata. unfold update_metadata.
    destruct (single_topic_error metadata) as [[code topic]|]; simpl.
    + apply (Hres (failure (Instance_of (for_code code) topic))).
    + apply (Hres success).
Qed.

End Coverage.

(** ** The further properties at concrete calls *)

(** X1 at a request, a failure at 10 and a merge at 20. *)
Lemma last_success_not_after_last_refresh_at_sample :
  clock_monotone (Int 0) sample_calls
  ∧ py_le
      (_last_successful_refresh_ms
         (run Errors_for_code sample_calls (__init__ None None)))
      (_last_refresh_ms
         (run Errors_for_code sample_calls (__init__ None None)))
    = true.
Proof.
  assert (Hclock : clock_monotone (Int 0) sample_calls)
    by (repeat split; by vm_compute).
  split; [exact Hclock|].
  exact (last_success_not_after_last_refresh Errors_for_code None None
           sample_calls Hclock).
Defined.

(** X2 for broker 1 through a merge that lists broker 2 alone. *)
Lemma brokers_are_never_forgotten_at_second_broker :
  is_Some (broker_metadata 1
             (update_metadata Errors_for_code (ms 1) first_broker_response
                new_cache).1)
  ∧ is_Some (broker_metadata 1
               (run Errors_for_code
                  [call_update_metadata (ms 2) second_broker_response]
                  (update_metadata Errors_for_code (ms 1) first_broker_response
                     new_cache).1)).
Proof.
  assert (Hknown : is_Some (broker_metadata 1
                     (update_metadata Errors_for_code (ms 1) first_broker_response
                        new_cache).1)) by (by eexists).
  split; [exact Hknown|].
  exact (brokers_are_never_forgotten Errors_for_code _
           [call_update_metadata (ms 2) second_broker_response] 1 Hknown).
Defined.

(** X4 for partition 1 of the topic "orders". *)
Lemma leader_is_the_last_one_listed_at_orders :
  single_topic_error orders_response = None
  ∧ leader_for_partition ("orders"%string, 1)
      (update_metadata Errors_for_code (ms 5) orders_response new_cache).1
    = Some 2.
Proof.
  split; [reflexivity|].
  rewrite (leader_is_the_last_one_listed Errors_for_code new_cache (ms 5)
             orders_response "orders" 1 eq_refl).
  reflexivity.
Defined.

(** X6 for a listener registered before the sample calls. *)
Lemma listener_called_once_per_successful_update_at_sample :
  (3%positive ∈ _listeners (add_listener 3 new_cache))
  ∧ Forall (λ c, c ≠ call_remove_listener 3) sample_calls
  ∧ times_called 3
      (notifications Errors_for_code sample_calls (add_listener 3 new_cache))
    = 1%nat.
Proof.
  assert (Hin : 3%positive ∈ _listeners (add_listener 3 new_cache))
    by (simpl; set_solver).
  assert (Hcs : Forall (λ c, c ≠ call_remove_listener 3) sample_calls)
    by (repeat constructor; discriminate).
  split; [exact Hin|]. split; [exact Hcs|].
  rewrite (listener_called_once_per_successful_update Errors_for_code
             (add_listener 3 new_cache) sample_calls 3 Hin Hcs).
  reflexivity.
Defined.

(** X7 on a new cache. *)
Lemma add_then_remove_listener_at_new_cache :
  (3%positive ∉ _listeners new_cache)
  ∧ remove_listener 3 (add_listener 3 new_cache) = inr new_cache.
Proof.
  assert (Hnot : 3%positive ∉ _listeners new_cache) by (simpl; set_solver).
  split; [exact Hnot|].
  exact (add_then_remove_listener new_cache 3 Hnot).
Defined.

(** X12 for the future failed at time 10, through a request and a merge. *)
Lemma resolved_future_keeps_its_outcome_at_sample :
  futures (run Errors_for_code
             [call_request_update;
              call_failed_update (ms 10) (DriverError "timeout")]
             (__init__ None None)) !! 0%nat
  = Some (Failure (DriverError "timeout"))
  ∧ is_done (Failure (DriverError "timeout")) = true
  ∧ futures
      (run Errors_for_code
         [call_request_update; call_update_metadata (ms 20) orders_response]
         (run Errors_for_code
            [call_request_update;
             call_failed_update (ms 10) (DriverError "timeout")]
            (__init__ None None))) !! 0%nat
    = Some (Failure (DriverError "timeout")).
Proof.
  split; [reflexivity|]. split; [reflexivity|].
  exact (resolved_future_keeps_its_outcome Errors_for_code None None
           [call_request_update; call_failed_update (ms 10) (DriverError "timeout")]
           [call_request_update; call_update_metadata (ms 20) orders_response]
           0%nat (Failure (DriverError "timeout")) eq_refl eq_refl).
Defined.

(** X13 for the response of two brokers and two topics. *)
Lemma merge_is_idempotent_on_the_maps_at_orders :
  single_topic_error orders_response = None
  ∧ _partitions
      (update_metadata Errors_for_code (ms 9) orders_response
         (update_metadata Errors_for_code (ms 5) orders_response new_cache).1).1
    = _partitions
        (update_metadata Errors_for_code (ms 5) orders_response new_cache).1.
Proof.
  split; [reflexivity|].
  exact (proj1 (proj2 (merge_is_idempotent_on_the_maps Errors_for_code
                         new_cache (ms 5) (ms 9) orders_response eq_refl))).
Defined.

(** X14 for a response of two topics, unknown and unauthorized. *)
Lemma all_topics_in_error_is_a_success_at_two_errors :
  length (topics_of all_errors_response) ≠ 1%nat
  ∧ Forall (λ entry : TopicEntry, Errors_for_code entry.1.1 ≠ NoError)
      (topics_of all_errors_response)
  ∧ _version
      (update_metadata Errors_for_code (ms 5) all_errors_response
         requested_cache).1
    = _version requested_cache + 1.
Proof.
  assert (Hlen : length (topics_of all_errors_response) ≠ 1%nat)
    by (simpl; lia).
  assert (Herr : Forall (λ entry : TopicEntry,
                           Errors_for_code entry.1.1 ≠ NoError)
                   (topics_of all_errors_response))
    by (repeat constructor; discriminate).
  split; [exact Hlen|]. split; [exact Herr|].
  exact (proj1 (proj2 (proj2 (all_topics_in_error_is_a_success
                                Errors_for_code requested_cache (ms 5)
                                all_errors_response Hlen Herr)))).
Defined.

(** X15 through a failure and a single-topic error. *)
Lemma request_outlives_failures_at_requested_cache :
  _need_update requested_cache = true
  ∧ Forall (λ c, is_successful_update c = false)
      [call_failed_update (ms 10) (DriverError "timeout");
       call_update_metadata (ms 20) solo_response]
  ∧ _need_update
      (run Errors_for_code
         [call_failed_update (ms 10) (DriverError "timeout");
          call_update_metadata (ms 20) solo_response]
         requested_cache)
    = true.
Proof.
  assert (Hcs : Forall (λ c, is_successful_update c = false)
                  [call_failed_update (ms 10) (DriverError "timeout");
                   call_update_metadata (ms 20) solo_response])
    by (repeat constructor).
  split; [reflexivity|]. split; [exact Hcs|].
  exact (request_outlives_failures Errors_for_code requested_cache _
           eq_refl Hcs).
Defined.

(** X18 for the response of two topics, one unknown. *)
Lemma topics_are_those_without_error_at_orders :
  single_topic_error orders_response = None
  ∧ topics (update_metadata Errors_for_code (ms 5) orders_response new_cache).1
    = no_error_topics Errors_for_code (topics_of orders_response).
Proof.
  split; [reflexivity|].
  exact (proj1 (topics_are_those_without_error Errors_for_code new_cache
                  (ms 5)
                  orders_response eq_refl)).
Defined.

(** X19 through a failure and a single-topic error. *)
Lemma failures_leave_the_view_untouched_at_requested_cache :
  Forall (λ c, is_successful_update c = false)
    [call_failed_update (ms 10) (DriverError "timeout");
     call_update_metadata (ms 20) solo_response]
  ∧ _version
      (run Errors_for_code
         [call_failed_update (ms 10) (DriverError "timeout");
          call_update_metadata (ms 20) solo_response]
         requested_cache)
    = _version requested_cache.
Proof.
  assert (Hcs : Forall (λ c, is_successful_update c = false)
                  [call_failed_update (ms 10) (DriverError "timeout");
                   call_update_metadata (ms 20) solo_response])
    by (repeat constructor).
  split; [exact Hcs|].
  exact (proj1 (proj2 (proj2 (failures_leave_the_view_untouched
                                Errors_for_code requested_cache _ Hcs)))).
Defined.

(** X20 on a new cache, with a second request and a listener in between. *)
Lemma request_is_answered_by_the_next_attempt_at_new_cache :
  well_formed new_cache
  ∧ Forall (λ c, is_resolution c = false)
      [call_request_update; call_add_listener 3]
  ∧ futures
      (update_metadata Errors_for_code (ms 20) solo_response
         (run Errors_for_code [call_request_update; call_add_listener 3]
            (request_update new_cache).2)).1
      !! (request_update new_cache).1
    = Some (Failure (Instance_of LeaderNotAvailableError "solo")).
Proof.
  assert (Hwf : well_formed new_cache) by exact I.
  assert (Hcs : Forall (λ c, is_resolution c = false)
                  [call_request_update; call_add_listener 3])
    by (repeat constructor).
  split; [exact Hwf|]. split; [exact Hcs|].
  exact (proj2 (request_is_answered_by_the_next_attempt Errors_for_code
                  new_cache _ (ms 20) Hwf Hcs) solo_response).
Defined.

(** X17 for the default configuration, after a request, at 300000
    milliseconds. *)
Lemma never_refreshed_cache_is_stale_at_default :
  Forall (λ c, reading c = None) [call_request_update]
  ∧ valid_binary 53 1024 (ms 300000) = true
  ∧ 0 ≤ default 300000 None < 2 ^ 53
  ∧ 0 ≤ default 100 None < 2 ^ 53
  ∧ py_le (Int (default 300000 None)) (Float (ms 300000)) = true
  ∧ py_le (Int (default 100 None)) (Float (ms 300000)) = true
  ∧ ∃ v, ttl (ms 300000)
           (run Errors_for_code [call_request_update] (__init__ None None))
         = inr v
         ∧ is_zero v.
Proof.
  assert (Hcs : Forall (λ c, reading c = None) [call_request_update])
    by (repeat constructor).
  assert (Hvalid : valid_binary 53 1024 (ms 300000) = true) by reflexivity.
  assert (Hage : 0 ≤ default 300000 None < 2 ^ 53) by (simpl; lia).
  assert (Hretry : 0 ≤ default 100 None < 2 ^ 53) by (simpl; lia).
  assert (Hage_le : py_le (Int (default 300000 None)) (Float (ms 300000))
                    = true) by (by vm_compute).
  assert (Hretry_le : py_le (Int (default 100 None)) (Float (ms 300000))
                      = true) by (by vm_compute).
  repeat (split; [assumption|]).
  exact (never_refreshed_cache_is_stale Errors_for_code None None
           [call_request_update] (ms 300000)
           Hcs Hvalid Hage Hretry Hage_le Hretry_le).
Defined.

(** X21 for the default configuration after the sample calls, read at 25
    milliseconds. *)
Lemma ttl_returns_in_reached_states_at_sample :
  0 ≤ default 300000 None < 2 ^ 53
  ∧ 0 ≤ default 100 None < 2 ^ 53
  ∧ ∃ v, ttl (ms 25)
           (run Errors_for_code sample_calls (__init__ None None))
         = inr v.
Proof.
  assert (Hage : 0 ≤ default 300000 None < 2 ^ 53) by (simpl; lia).
  assert (Hretry : 0 ≤ default 100 None < 2 ^ 53) by (simpl; lia).
  split; [exact Hage|]. split; [exact Hretry|].
  exact (ttl_returns_in_reached_states Errors_for_code None None
           sample_calls (ms 25) Hage Hretry).
Defined.

(** A retry backoff too large for a float makes [ttl()] raise. *)
Example ttl_raises_on_a_huge_backoff :
  ttl (ms 25) (__init__ (Some (10 ^ 400)) None) = inl OverflowError.
Proof. by vm_compute. Qed.
